(** * The unit estimator of the oil-drop simulation

    A shallow embedding of [find_charge_unit] (src/oildrop.py, lines 51-72),
    the one function of the repository that computes something, and the
    properties of it that the specification states.

    Numbers.  The source computes in binary floating point.  The
    specification speaks of real differences, so the embedding is over the
    rationals [Q]: every operation of the source ([/], [-], [abs], [round],
    [<], [>]) has its exact meaning, decimal literals denote themselves
    ([0.1] is one tenth), and [float("inf")] is the absent bound [None].
    Equality of rationals is [==] ([Qeq]); [=] is used only where the two
    sides are the same fraction.

    Effects.  The function reads one list object and builds a second one.
    The pure embedding comes first; a store-passing version of the same body,
    used for the frame property, follows it.

    Doubles.  The module [Binary64] is the same body once more over IEEE
    binary64 numbers, with the candidates as [np.arange] computes them and
    with the errors [round] raises for a quotient that is infinite or not a
    number.  Where candidates tie in exact arithmetic, as all exact divisors
    of the differences do at error zero, the rounding noise of the doubles
    decides between them; what depends on such ties is stated and proved
    over [Binary64]. *)

From Stdlib Require Import String.
From stdpp Require Import base option gmap.
From Stdlib Require Import ZArith QArith Qround Qabs Lqa List Sorted Lia.
From Stdlib Require Import Floats Uint63 Permutation.
Import ListNotations.
Open Scope Q_scope.

#[local] Set Warnings "-inexact-float".

(** ** Comparisons and rounding *)

(** [x > y] and [x < y] as the booleans the source branches on. *)
Definition Qgtb (x y : Q) : bool :=
  match Qcompare x y with Gt => true | _ => false end.

Definition Qltb (x y : Q) : bool :=
  match Qcompare x y with Lt => true | _ => false end.

(** Python's one-argument [round]: the nearest integer, a tie going to the
    even neighbour. *)
Definition round_half_even (q : Q) : Z :=
  let f := Qfloor q in
  match Qcompare (q - inject_Z f) (1 # 2) with
  | Lt => f
  | Gt => (f + 1)%Z
  | Eq => if Z.even f then f else (f + 1)%Z
  end.

(** [round(x, 1)]: [x] to one decimal place, ties to even.  The result is
    always a fraction over the denominator ten. *)
Definition round1 (x : Q) : Q := inject_Z (round_half_even (x * 10)) / 10.

(** ** The body of [find_charge_unit] *)

(** Line 54, the filter of the comprehension: [... for d in differences
    if d > 0.1]. *)
Definition retained (differences : list Q) : list Q :=
  List.filter (fun d => Qgtb d 0.1) differences.

(** Line 54, whole: [non_zero_diffs = [round(d, 1) for d in differences
    if d > 0.1]]. *)
Definition non_zero_diffs (differences : list Q) : list Q :=
  List.map round1 (retained differences).

(** Lines 64-66, the summand of one difference:
    [ratio = diff / test_unit; closest_int = round(ratio);
     abs(ratio - closest_int)]. *)
Definition deviation (diff test_unit : Q) : Q :=
  let ratio := diff / test_unit in
  let closest_int := round_half_even ratio in
  Qabs (ratio - inject_Z closest_int).

(** Lines 61-66, the inner loop: [error = 0] and then [error += ...] for
    each element of the list, in order. *)
Definition fit_error (diffs : list Q) (test_unit : Q) : Q :=
  fold_left (fun error diff => error + deviation diff test_unit) diffs 0.

(** The two variables the outer loop updates.  [min_error] starts at
    [float("inf")], which is [None] here. *)
Record search : Type := Search { best_unit : Q; min_error : option Q }.

(** Lines 57-58. *)
Definition search_init : search := Search 0 None.

(** Line 68, [error < min_error]. *)
Definition improves (error : Q) (bound : option Q) : bool :=
  match bound with
  | None => true
  | Some m => Qltb error m
  end.

(** Lines 61-70, one round of the outer loop. *)
Definition probe (diffs : list Q) (s : search) (test_unit : Q) : search :=
  let error := fit_error diffs test_unit in
  if improves error (min_error s) then Search test_unit (Some error) else s.

(** Lines 57-70: the outer loop over the candidates, in the order of the
    array, and the [best_unit] it ends with. *)
Definition grid_search (candidates diffs : list Q) : Q :=
  best_unit (fold_left (probe diffs) candidates search_init).

(** [np.arange(start, stop, step)]: [ceil((stop - start) / step)] values
    [start + i * step], none when that count is not positive.  (numpy
    refuses a zero step; the definition is used with a nonzero one.) *)
Definition arange (start stop step : Q) : list Q :=
  List.map (fun i => start + inject_Z (Z.of_nat i) * step)
           (seq 0 (Z.to_nat (Qceiling ((stop - start) / step)))).

(** Line 60, the candidates of the source. *)
Definition grid : list Q := arange 0.5 3.0 0.1.

(** Lines 51-72. *)
Definition find_charge_unit (differences : list Q) : Q :=
  round1 (grid_search (arange 0.5 3.0 0.1) (non_zero_diffs differences)).

(** What the outer loop has established once it has gone through the
    candidates [seen]: nothing before the first round; afterwards
    [best_unit] is one of them, [min_error] is its error, every candidate
    before it has a larger error and none after it has a smaller one. *)
Definition searched (diffs seen : list Q) (s : search) : Prop :=
  match min_error s with
  | None => seen = [] /\ s = search_init
  | Some e =>
      exists before after,
        seen = before ++ best_unit s :: after /\
        e = fit_error diffs (best_unit s) /\
        Forall (fun c => e < fit_error diffs c) before /\
        Forall (fun c => e <= fit_error diffs c) after
  end.

(** Two states of the outer loop that differ at most in how the fraction
    [min_error] is written. *)
Definition same_search (s s' : search) : Prop :=
  best_unit s = best_unit s' /\
  match min_error s, min_error s' with
  | None, None => True
  | Some e, Some e' => e == e'
  | _, _ => False
  end.

(** ** How a call ends *)

(** The error classes the specification names (section 7), none of which is
    defined or raised anywhere in the source, and the TypeError of a call
    whose arguments do not fit the parameters of the function. *)
Inductive exn : Type :=
| InsufficientDataError
| InvalidRangeError
| InvalidInputError
| TypeError.

Inductive outcome : Type :=
| Returns (value : Q)
| Raises (e : exn).

(** The body has no [raise], and over the rationals none of its operations
    fails, so every call ends in its [return] (line 72). *)
Definition call_find_charge_unit (differences : list Q) : outcome :=
  Returns (find_charge_unit differences).

(** What a caller can pass: a number or a sequence of numbers. *)
Inductive value : Type :=
| Number (q : Q)
| Sequence (l : list Q).

(** Line 51, [def find_charge_unit(differences):].  The function has the
    one parameter [differences] and no other, so a call binds when it
    passes exactly one argument, by position or under that name; any other
    call is a TypeError before the body runs, and iterating over a number
    (line 54) is one too. *)
Definition call (args : list value) (kwargs : list (string * value)) : outcome :=
  let body v :=
    match v with
    | Sequence differences => call_find_charge_unit differences
    | Number _ => Raises TypeError
    end in
  match args, kwargs with
  | [v], [] => body v
  | [], [(name, v)] =>
      if String.eqb name "differences" then body v else Raises TypeError
  | _, _ => Raises TypeError
  end.

(** "A call that passes a search grid": more than the one argument, or a
    keyword other than [differences]. *)
Definition passes_grid (args : list value) (kwargs : list (string * value)) : Prop :=
  (2 <= length args)%nat \/
  exists name v, In (name, v) kwargs /\ name <> "differences"%string.

(** ** The same body over a store of list objects *)

(** A Python list is an object reached through a reference; the caller's
    list and the one the comprehension builds are two objects of one
    store. *)
Abbreviation ref := nat.
Abbreviation store := (gmap nat (list Q)).

Definition action (A : Type) : Type := store -> option (A * store).

Definition pure_value {A : Type} (a : A) : action A :=
  fun st => Some (a, st).

Definition and_then {A B : Type} (m : action A) (k : A -> action B) : action B :=
  fun st =>
    match m st with
    | Some (a, st') => k a st'
    | None => None
    end.

Notation "x <-- m ;; k" := (and_then m (fun x => k))
  (at level 100, m at next level, right associativity).

(** Iterating over a list object reads it; a dangling reference is no
    list. *)
Definition read_list (r : ref) : action (list Q) :=
  fun st =>
    match st !! r with
    | Some l => Some (l, st)
    | None => None
    end.

(** A list display or comprehension makes a new object. *)
Definition new_list (l : list Q) : action ref :=
  fun st => let r := fresh (dom st) in Some (r, <[r := l]> st).

(** Lines 51-72 again: [differences] is read once, by the comprehension,
    whose result is the new object [non_zero_diffs]; the loops read that
    one.  No statement of the body assigns to an element of a list, appends
    to one or sorts one. *)
Definition find_charge_unit_st (differences : ref) : action Q :=
  ds <-- read_list differences ;;
  non_zero <-- new_list (List.map round1 (List.filter (fun d => Qgtb d 0.1) ds)) ;;
  diffs <-- read_list non_zero ;;
  pure_value (round1 (grid_search (arange 0.5 3.0 0.1) diffs)).

(** ** The specification's words *)

(** "The candidate that minimizes the fit score, with ties broken in favor of
    the first-encountered (lowest) candidate value": [r] is a candidate, no
    candidate scores less, and every lower candidate scores more. *)
Definition first_minimiser (score : Q -> Q) (candidates : list Q) (r : Q) : Prop :=
  (exists c, In c candidates /\ r == c) /\
  (forall c, In c candidates -> score r <= score c) /\
  (forall c, In c candidates -> c < r -> score r < score c).

(** "At least one usable (post-filter) value". *)
Definition usable (differences : list Q) : Prop :=
  exists d, In d differences /\ 0.1 < d.

(** "[differences = [(k_i - min(k)) * u for i in range(n)]]". *)
Definition k_min (ks : list Z) : Z :=
  match ks with
  | [] => 0%Z
  | k :: rest => fold_left Z.min rest k
  end.

Definition exact_differences (ks : list Z) (u : Q) : list Q :=
  List.map (fun k => inject_Z (k - k_min ks) * u) ks.

(** "[d] is an exact integer multiple of [c]". *)
Definition multiple_of (c d : Q) : Prop := exists n : Z, d == inject_Z n * c.

(** ** The body over binary64 numbers *)

Module Binary64.

(** What a call can end in besides a value: [round] of an infinite quotient
    raises OverflowError, of a quotient that is not a number ValueError. *)
Inductive error : Type := OverflowError | ValueError.

Inductive result (A : Type) : Type :=
| Returned (a : A)
| Raised (e : error).

Arguments Returned {A} a.
Arguments Raised {A} e.

(** The rational a finite double stands for (zero for the others). *)
Definition exact (x : float) : Q :=
  match Prim2SF x with
  | S754_finite s m e =>
      let v := inject_Z (Z.pos m) * Qpower 2 e in
      if s then - v else v
  | _ => 0
  end.

(** Zero or a finite number: neither infinite nor NaN. *)
Definition finite (x : float) : bool :=
  match Prim2SF x with
  | S754_zero _ | S754_finite _ _ _ => true
  | _ => false
  end.

(** An integer as a double: the nearest one, ties to even. *)
Definition of_int (n : Z) : float := SF2Prim (binary_normalize prec emax n 0 false).

(** [round(x)] of a double: the nearest integer to its exact value, ties to
    even; an error for an infinity or a NaN. *)
Definition py_round (x : float) : result Z :=
  match Prim2SF x with
  | S754_nan => Raised ValueError
  | S754_infinity _ => Raised OverflowError
  | _ => Returned (round_half_even (exact x))
  end.

(** [round(d, 1)] of a Python float: the exact value is rounded to one
    decimal and the double nearest to that decimal is the result.  Below
    2^49 the number of tenths is an integer of fewer than 53 bits and its
    division by ten is that nearest double; from 2^49 on, and for an
    infinity, the doubles are too far apart for the rounding to leave
    [d]. *)
Definition py_round1 (d : float) : float :=
  if (abs d <? 0x1p49)%float
  then (of_int (round_half_even (exact d * 10)) / 10)%float
  else d.

(** [round(x, 1)] of a numpy double: scaled by ten, rounded to an integer,
    scaled back. *)
Definition np_round1 (x : float) : float :=
  (of_int (round_half_even (exact (x * 10)%float)) / 10)%float.

(** Line 54. *)
Definition non_zero_diffs (differences : list float) : list float :=
  List.map py_round1 (List.filter (fun d => (0.1 <? d)%float) differences).

(** Lines 61-66: the inner loop from an accumulated [error] on. *)
Fixpoint fit_error_from (error : float) (diffs : list float) (test_unit : float)
  : result float :=
  match diffs with
  | [] => Returned error
  | diff :: rest =>
      let ratio := (diff / test_unit)%float in
      match py_round ratio with
      | Returned closest_int =>
          fit_error_from (error + abs (ratio - of_int closest_int))%float
                         rest test_unit
      | Raised e => Raised e
      end
  end.

Definition fit_error (diffs : list float) (test_unit : float) : result float :=
  fit_error_from 0%float diffs test_unit.

(** Lines 60-70: the outer loop from given [best_unit] and [min_error]
    on. *)
Fixpoint search (candidates : list float) (best_unit min_error : float)
    (diffs : list float) : result float :=
  match candidates with
  | [] => Returned best_unit
  | test_unit :: rest =>
      match fit_error diffs test_unit with
      | Returned error =>
          if (error <? min_error)%float
          then search rest test_unit error diffs
          else search rest best_unit min_error diffs
      | Raised e => Raised e
      end
  end.

(** [np.arange] on doubles: numpy stores [start] and [start + step] and
    fills the array from their difference. *)
Definition arange (start stop step : float) : list float :=
  let delta := ((start + step) - start)%float in
  List.map (fun i => (start + of_int (Z.of_nat i) * delta)%float)
           (seq 0 (Z.to_nat (Qceiling (exact ((stop - start) / step)%float)))).

(** Line 60. *)
Definition grid : list float := arange 0.5 3.0 0.1.

(** Lines 51-72. *)
Definition find_charge_unit (differences : list float) : result float :=
  match search (arange 0.5 3.0 0.1) 0%float infinity (non_zero_diffs differences) with
  | Returned best_unit => Returned (np_round1 best_unit)
  | Raised e => Raised e
  end.

(** "The computation stays finite": for every candidate the inner loop ends
    without an error and its error is a finite number. *)
Definition stays_finite (differences : list float) : bool :=
  forallb
    (fun test_unit =>
       match fit_error (non_zero_diffs differences) test_unit with
       | Returned error => finite error
       | Raised _ => false
       end)
    grid.

(** "[differences = [(k_i - min(k)) * u for i in range(n)]]" on doubles. *)
Definition exact_differences (ks : list Z) (u : float) : list float :=
  List.map (fun k => (of_int (k - k_min ks) * u)%float) ks.

(** Each element is below the next. *)
Fixpoint increasing (l : list float) : bool :=
  match l with
  | a :: (b :: _) as rest => (a <? b)%float && increasing rest
  | _ => true
  end.

End Binary64.

(** ** Notions used to reason about the loop on doubles *)

(** A triple of integers that orders the doubles other than NaN as [<?]
    does. *)
Definition order_key (f : spec_float) : Z * Z * Z :=
  match f with
  | S754_zero _ => (0, 0, 0)%Z
  | S754_infinity false => (2, 0, 0)%Z
  | S754_infinity true => (-2, 0, 0)%Z
  | S754_finite false m e => (1, e, Z.pos m)%Z
  | S754_finite true m e => (-1, - e, Z.neg m)%Z
  | S754_nan => (0, 0, 0)%Z
  end.

Definition key_lt (a b : Z * Z * Z) : Prop :=
  (fst (fst a) < fst (fst b) \/
   fst (fst a) = fst (fst b) /\
   (snd (fst a) < snd (fst b) \/
    snd (fst a) = snd (fst b) /\ snd a < snd b))%Z.

Definition is_number (f : spec_float) : Prop := f <> S754_nan.

(** The inner loop ends in a finite error for the candidate [c]. *)
Definition computes (diffs : list float) (c : float) : Prop :=
  exists e, Binary64.fit_error diffs c = Binary64.Returned e /\
            Binary64.finite e = true.

(** What the loop on doubles has established after the candidates [seen],
    when every error came out finite: nothing before the first round;
    afterwards [best_unit] is one of them, [min_error] its error, every
    candidate before it has a larger error and none after it a smaller
    one. *)
Definition searched64 (diffs seen : list float) (best_unit min_error : float) : Prop :=
  (seen = [] /\ best_unit = 0%float /\ min_error = infinity) \/
  exists before after,
    seen = before ++ best_unit :: after /\
    Binary64.fit_error diffs best_unit = Binary64.Returned min_error /\
    Binary64.finite min_error = true /\
    Forall (fun c => exists e, Binary64.fit_error diffs c = Binary64.Returned e /\
                               (min_error <? e)%float = true) before /\
    Forall (fun c => exists e, Binary64.fit_error diffs c = Binary64.Returned e /\
                               Binary64.finite e = true /\
                               (e <? min_error)%float = false) after.

(** ** The script around the estimator (src/oildrop.py) *)

(** Lines 10-12. *)
Definition ELECTRON_CHARGE : Q := 1.2.
Definition BASE_MASS : Q := 6.5.
Definition NUM_DROPS : nat := 50.

(** Lines 22-28.  The numbers that [random.randint(1, 20)] returns are the
    argument [draws], one for each round of the loop; [drop_masses] and
    [electrons_picked] are the two lists the loop appends to. *)
Definition drop_mass (n_electrons : Z) : Q :=
  BASE_MASS + inject_Z n_electrons * ELECTRON_CHARGE.

Definition drop_masses (draws : list Z) : list Q := List.map drop_mass draws.

Definition electrons_picked (draws : list Z) : list Z := draws.

(** [sorted(...)]: a new list in ascending order, elements that compare
    equal staying in the order they had (an element is put in front of the
    first one it is not greater than). *)
Fixpoint insert_sorted {A : Type} (leb : A -> A -> bool) (x : A) (l : list A)
  : list A :=
  match l with
  | [] => [x]
  | y :: rest => if leb x y then x :: y :: rest else y :: insert_sorted leb x rest
  end.

Definition sorted_by {A : Type} (leb : A -> A -> bool) (l : list A) : list A :=
  fold_right (insert_sorted leb) [] l.

Definition sorted (l : list Q) : list Q := sorted_by Qle_bool l.

Definition sorted_ints (l : list Z) : list Z := sorted_by Z.leb l.

(** [min(...)] of a list: the first of its least elements; [None] is the
    ValueError of an empty list. *)
Definition py_min (l : list Q) : option Q :=
  match l with
  | [] => None
  | x :: rest => Some (fold_left (fun m y => if Qltb y m then y else m) rest x)
  end.

(** Lines 32-35: [min_mass = min(sorted_masses)] and
    [mass_differences = [mass - min_mass for mass in sorted_masses]]. *)
Definition mass_differences (sorted_masses : list Q) : option (list Q) :=
  match py_min sorted_masses with
  | Some min_mass => Some (List.map (fun mass => mass - min_mass) sorted_masses)
  | None => None
  end.

(** Lines 38-42: for [i] in [range(len(sorted_masses) - 1)], the step from
    element [i] to element [i + 1] is appended when it is above 0.1. *)
Definition step_sizes (sorted_masses : list Q) : list Q :=
  flat_map
    (fun i =>
       let step := nth (i + 1) sorted_masses 0 - nth i sorted_masses 0 in
       if Qgtb step 0.1 then [step] else [])
    (seq 0 (length sorted_masses - 1)).

(** Lines 127-128: [actual_electrons = sorted(electrons_picked)] and
    [theoretical_masses]. *)
Definition theoretical_masses (draws : list Z) : list Q :=
  List.map (fun n => BASE_MASS + inject_Z n * ELECTRON_CHARGE)
           (sorted_ints (electrons_picked draws)).

(** ** The second script (src/domino_oildrop.py) *)

Module Domino.

Definition num_drops : nat := 40.




(** Lines 22-23: [smallest = box_sorted[0]], an IndexError ([None]) on an
    empty list, and [absolute_increase]. *)
Definition absolute_increase (box_sorted : list Q) : option (list Q) :=
  match box_sorted with
  | smallest :: _ => Some (List.map (fun mass => mass - smallest) box_sorted)
  | [] => None
  end.

(** Lines 26-30: the steps between neighbours that are not zero. *)
Definition step_sizes (box_sorted : list Q) : list Q :=
  flat_map
    (fun i =>
       let step := nth (i + 1) box_sorted 0 - nth i box_sorted 0 in
       if negb (Qeq_bool step 0) then [step] else [])
    (seq 0 (length box_sorted - 1)).

End Domino.

(** ** Notions used to state properties of the two scripts *)

(** The steps between neighbours of a list that pass a test, by recursion
    on the list; both [step_sizes] are instances. *)
Fixpoint kept_gaps (keep : Q -> bool) (l : list Q) : list Q :=
  match l with
  | a :: (b :: _) as rest =>
      (if keep (b - a) then [b - a] else []) ++ kept_gaps keep rest
  | _ => []
  end.

(** The sum of a list of numbers. *)
Definition total (l : list Q) : Q := fold_right Qplus 0 l.

(** ** The generated masses over binary64 numbers *)

Module Binary64_script.

(** Line 25 on doubles. *)
Definition drop_mass (n_electrons : Z) : float :=
  (6.5 + Binary64.of_int n_electrons * 1.2)%float.

(** For a pair of electron counts: does line 54 turn the difference of the
    two masses into the double nearest to the exact difference, a whole
    number of tenths? *)
Definition rounds_to_exact (p : Z * Z) : bool :=
  PrimFloat.eqb
    (Binary64.py_round1 (drop_mass (fst p) - drop_mass (snd p))%float)
    (Binary64.of_int (12 * (fst p - snd p)) / 10)%float.

(** The pairs of counts [n > m] that [random.randint(1, 20)] can give. *)
Definition count_pairs : list (Z * Z) :=
  List.filter (fun p => (snd p <? fst p)%Z)
    (flat_map (fun n => List.map (fun m => (n, m)) (List.map Z.of_nat (seq 1 20)))
              (List.map Z.of_nat (seq 1 20))).

(** Lines 38-42 on doubles. *)
Fixpoint step_sizes (sorted_masses : list float) : list float :=
  match sorted_masses with
  | a :: (b :: _) as rest =>
      let step := (b - a)%float in
      if (0.1 <? step)%float then step :: step_sizes rest else step_sizes rest
  | _ => []
  end.

(** [sum] of a list of doubles. *)
Definition sum (l : list float) : float :=
  fold_left (fun acc x => (acc + x)%float) l 0%float.

End Binary64_script.

(** * Properties *)

(** ** Comparisons *)

Lemma Qgtb_true (x y : Q) : Qgtb x y = true <-> y < x.
Proof.
  unfold Qgtb. rewrite (Qgt_alt x y).
  destruct (Qcompare x y); split; intros H; try reflexivity; discriminate H.
Qed.

Lemma Qgtb_false (x y : Q) : Qgtb x y = false <-> x <= y.
Proof.
  rewrite <- not_true_iff_false, Qgtb_true. split.
  - apply Qnot_lt_le.
  - apply Qle_not_lt.
Qed.

Lemma Qltb_true (x y : Q) : Qltb x y = true <-> x < y.
Proof.
  unfold Qltb. rewrite (Qlt_alt x y).
  destruct (Qcompare x y); split; intros H; try reflexivity; discriminate H.
Qed.

Lemma Qltb_false (x y : Q) : Qltb x y = false <-> y <= x.
Proof.
  rewrite <- not_true_iff_false, Qltb_true. split.
  - apply Qnot_lt_le.
  - apply Qle_not_lt.
Qed.

(** ** Rounding *)

Lemma round_half_even_comp (q q' : Q) :
  q == q' -> round_half_even q = round_half_even q'.
Proof.
  intros E. unfold round_half_even.
  rewrite (Qfloor_comp _ _ E).
  assert (C : Qcompare (q - inject_Z (Qfloor q')) (1 # 2)
              = Qcompare (q' - inject_Z (Qfloor q')) (1 # 2)).
  { apply Qcompare_comp; [rewrite E|]; reflexivity. }
  rewrite C. reflexivity.
Qed.

Lemma round_half_even_Z (n : Z) : round_half_even (inject_Z n) = n.
Proof.
  unfold round_half_even. rewrite Qfloor_Z.
  assert (L : inject_Z n - inject_Z n < 1 # 2) by lra.
  rewrite (proj1 (Qlt_alt _ _) L). reflexivity.
Qed.

(** The nearest integer is within one half. *)
Lemma round_half_even_near (q : Q) :
  Qabs (q - inject_Z (round_half_even q)) <= 1 # 2.
Proof.
  unfold round_half_even.
  pose proof (Qfloor_le q) as Lo. pose proof (Qlt_floor q) as Hi.
  rewrite inject_Z_plus in Hi. change (inject_Z 1) with 1 in Hi.
  set (f := Qfloor q) in *.
  destruct (Qcompare (q - inject_Z f) (1 # 2)) eqn:C.
  - apply (proj2 (Qeq_alt _ _)) in C. destruct (Z.even f).
    + apply Qabs_case; intros; lra.
    + rewrite inject_Z_plus. change (inject_Z 1) with 1.
      apply Qabs_case; intros; lra.
  - apply (proj2 (Qlt_alt _ _)) in C. apply Qabs_case; intros; lra.
  - apply (proj2 (Qgt_alt _ _)) in C. rewrite inject_Z_plus.
    change (inject_Z 1) with 1. apply Qabs_case; intros; lra.
Qed.

Lemma round1_comp (x x' : Q) : x == x' -> round1 x = round1 x'.
Proof.
  intros E. unfold round1.
  rewrite (round_half_even_comp (x * 10) (x' * 10)); [reflexivity|].
  rewrite E. reflexivity.
Qed.

(** A number of tenths is its own rounding. *)
Lemma round1_tenths (x : Q) (n : Z) : x == inject_Z n / 10 -> round1 x == x.
Proof.
  intros E. unfold round1.
  rewrite (round_half_even_comp (x * 10) (inject_Z n)).
  - rewrite round_half_even_Z. symmetry. exact E.
  - rewrite E. field.
Qed.

(** ** The fit error *)

Lemma deviation_nonneg (d c : Q) : 0 <= deviation d c.
Proof. unfold deviation. apply Qabs_nonneg. Qed.

Lemma deviation_comp (d d' c c' : Q) :
  d == d' -> c == c' -> deviation d c == deviation d' c'.
Proof.
  intros Ed Ec. unfold deviation.
  assert (E : d / c == d' / c') by (rewrite Ed, Ec; reflexivity).
  rewrite (round_half_even_comp _ _ E), E. reflexivity.
Qed.

(** No difference is further than one half from a whole number of units. *)
Lemma deviation_le_half (d c : Q) : deviation d c <= 1 # 2.
Proof. unfold deviation. apply round_half_even_near. Qed.

Lemma deviation_zero_multiple (d c : Q) :
  ~ c == 0 -> (deviation d c == 0 <-> multiple_of c d).
Proof.
  intros Nz. unfold deviation, multiple_of. split.
  - intros H. exists (round_half_even (d / c)).
    assert (E : d / c - inject_Z (round_half_even (d / c)) == 0).
    { revert H. apply Qabs_case; intros; lra. }
    assert (R : d / c == inject_Z (round_half_even (d / c))) by lra.
    rewrite <- R. field. exact Nz.
  - intros [n E].
    assert (R : d / c == inject_Z n) by (rewrite E; field; exact Nz).
    rewrite (round_half_even_comp _ _ R), round_half_even_Z, R.
    apply Qabs_case; intros; lra.
Qed.

Lemma fold_error_shift (c : Q) (ds : list Q) (a : Q) :
  fold_left (fun error diff => error + deviation diff c) ds a == a + fit_error ds c.
Proof.
  unfold fit_error. revert a.
  induction ds as [|d ds IH]; intros a; simpl.
  - ring.
  - rewrite (IH (a + deviation d c)), (IH (0 + deviation d c)). ring.
Qed.

Lemma fit_error_cons (d : Q) (ds : list Q) (c : Q) :
  fit_error (d :: ds) c == deviation d c + fit_error ds c.
Proof.
  unfold fit_error at 1. simpl. rewrite fold_error_shift. ring.
Qed.

Lemma fit_error_nonneg (ds : list Q) (c : Q) : 0 <= fit_error ds c.
Proof.
  induction ds as [|d ds IH].
  - apply Qle_refl.
  - rewrite fit_error_cons. pose proof (deviation_nonneg d c). lra.
Qed.

Lemma fit_error_comp (ds ds' : list Q) (c c' : Q) :
  Forall2 Qeq ds ds' -> c == c' -> fit_error ds c == fit_error ds' c'.
Proof.
  intros F Ec. induction F as [|d d' ds ds' Ed _ IH].
  - reflexivity.
  - rewrite !fit_error_cons, IH, (deviation_comp d d' c c' Ed Ec). reflexivity.
Qed.

Lemma Forall2_Qeq_refl (l : list Q) : Forall2 Qeq l l.
Proof. induction l; constructor; [reflexivity | assumption]. Qed.

Lemma fit_error_comp_unit (ds : list Q) (c c' : Q) :
  c == c' -> fit_error ds c == fit_error ds c'.
Proof. apply fit_error_comp, Forall2_Qeq_refl. Qed.

(** A zero sum of deviations has only zero summands. *)
Lemma fit_error_zero (ds : list Q) (c : Q) :
  fit_error ds c == 0 <-> Forall (fun d => deviation d c == 0) ds.
Proof.
  induction ds as [|d ds IH].
  - split; [constructor | reflexivity].
  - rewrite fit_error_cons.
    pose proof (deviation_nonneg d c) as Hd.
    pose proof (fit_error_nonneg ds c) as Hs.
    split.
    + intros H. constructor; [lra | apply IH; lra].
    + intros H. inversion H as [|? ? H1 H2]; subst.
      apply IH in H2. lra.
Qed.

(** ** The outer loop *)

Section Outer_loop.

Variable diffs : list Q.

Lemma probe_searched (seen : list Q) (s : search) (c : Q) :
  searched diffs seen s -> searched diffs (seen ++ [c]) (probe diffs s c).
Proof.
  unfold searched, probe. destruct s as [b [e|]]; simpl.
  - intros (before & after & -> & -> & Hb & Ha).
    destruct (Qltb (fit_error diffs c) (fit_error diffs b)) eqn:L; simpl.
    + apply Qltb_true in L.
      exists (before ++ b :: after), []. repeat split.
      * apply Forall_app. split; [|constructor].
        -- eapply Forall_impl; [|exact Hb]. simpl. intros x Hx. lra.
        -- exact L.
        -- eapply Forall_impl; [|exact Ha]. simpl. intros x Hx. lra.
      * constructor.
    + apply Qltb_false in L.
      exists before, (after ++ [c]). repeat split.
      * rewrite <- app_assoc. reflexivity.
      * exact Hb.
      * apply Forall_app. split; [exact Ha|]. constructor; [exact L|constructor].
  - intros [-> _]. exists [], []. repeat split; constructor.
Qed.

Lemma loop_searched (candidates seen : list Q) (s : search) :
  searched diffs seen s ->
  searched diffs (seen ++ candidates) (fold_left (probe diffs) candidates s).
Proof.
  revert seen s. induction candidates as [|c cs IH]; intros seen s H; simpl.
  - rewrite app_nil_r. exact H.
  - replace (seen ++ c :: cs) with ((seen ++ [c]) ++ cs)
      by (rewrite <- app_assoc; reflexivity).
    apply IH, probe_searched, H.
Qed.

(** With no candidate the loop body never runs. *)
Lemma grid_search_nil : grid_search [] diffs = 0.
Proof. reflexivity. Qed.

(** With candidates, the result is the first of those of least error. *)
Lemma grid_search_first_least (candidates : list Q) :
  candidates <> [] ->
  exists before after,
    candidates = before ++ grid_search candidates diffs :: after /\
    Forall (fun c => fit_error diffs (grid_search candidates diffs)
                     < fit_error diffs c) before /\
    Forall (fun c => fit_error diffs (grid_search candidates diffs)
                     <= fit_error diffs c) after.
Proof.
  intros Ne. unfold grid_search.
  pose proof (loop_searched candidates [] search_init (conj eq_refl eq_refl)) as H.
  simpl in H. unfold searched in H.
  destruct (fold_left (probe diffs) candidates search_init) as [b [e|]]; simpl in *.
  - destruct H as (before & after & E & -> & Hb & Ha).
    exists before, after. auto.
  - destruct H as [E _]. contradiction.
Qed.

End Outer_loop.

(** ** The candidates *)

Lemma In_arange (start stop step c : Q) :
  In c (arange start stop step) <->
  exists i : nat,
    (i < Z.to_nat (Qceiling ((stop - start) / step)))%nat /\
    c = start + inject_Z (Z.of_nat i) * step.
Proof.
  unfold arange. rewrite in_map_iff. split.
  - intros (i & <- & Hi). apply in_seq in Hi. exists i. split; [lia | reflexivity].
  - intros (i & Hi & ->). exists i. split; [reflexivity | apply in_seq; lia].
Qed.

(** An end point that is not above the start leaves no candidate. *)
Lemma arange_empty (start stop step : Q) :
  0 < step -> stop <= start -> arange start stop step = [].
Proof.
  intros Hs Hle. unfold arange.
  assert (Q0 : (stop - start) / step <= 0).
  { apply Qle_shift_div_r; [exact Hs | lra]. }
  assert (Z0 : (Qceiling ((stop - start) / step) <= 0)%Z).
  { change 0%Z with (Qceiling 0). apply Qceiling_resp_le. exact Q0. }
  replace (Z.to_nat (Qceiling ((stop - start) / step))) with 0%nat by lia.
  reflexivity.
Qed.

Lemma map_seq_sorted (f : nat -> Q) (a n : nat) :
  (forall i j : nat, (i < j)%nat -> f i < f j) ->
  StronglySorted Qlt (List.map f (seq a n)).
Proof.
  intros Mono. revert a. induction n as [|n IH]; intros a; simpl.
  - constructor.
  - constructor; [apply IH|].
    apply List.Forall_forall. intros x Hx.
    apply in_map_iff in Hx. destruct Hx as (j & <- & Hj).
    apply in_seq in Hj. apply Mono. lia.
Qed.

(** With a positive step the candidates come in increasing order. *)
Lemma arange_sorted (start stop step : Q) :
  0 < step -> StronglySorted Qlt (arange start stop step).
Proof.
  intros Hs. unfold arange. apply map_seq_sorted. intros i j Hij.
  assert (L : inject_Z (Z.of_nat i) < inject_Z (Z.of_nat j)).
  { rewrite <- Zlt_Qlt. lia. }
  nra.
Qed.

Lemma sorted_around (before after : list Q) (r : Q) :
  StronglySorted Qlt (before ++ r :: after) ->
  Forall (fun c => c < r) before /\ Forall (fun c => r < c) after.
Proof.
  induction before as [|b before IH]; simpl; intros S.
  - inversion S; subst. split; [constructor | assumption].
  - inversion S as [|? ? S' Hb]; subst.
    destruct (IH S') as [H1 H2]. split; [|exact H2].
    constructor; [|exact H1].
    rewrite List.Forall_forall in Hb. apply Hb, in_elt.
Qed.

Lemma grid_length : length grid = 25%nat.
Proof. reflexivity. Qed.

Lemma In_grid (c : Q) :
  In c grid <-> exists i : Z, (0 <= i < 25)%Z /\ c = 0.5 + inject_Z i * 0.1.
Proof.
  unfold grid. rewrite In_arange.
  change (Z.to_nat (Qceiling ((3.0 - 0.5) / 0.1))) with 25%nat. split.
  - intros (i & Hi & ->). exists (Z.of_nat i). split; [lia | reflexivity].
  - intros (i & Hi & ->). exists (Z.to_nat i).
    split; [lia|]. rewrite Z2Nat.id by lia. reflexivity.
Qed.

Lemma grid_sorted : StronglySorted Qlt grid.
Proof. apply arange_sorted. reflexivity. Qed.

Lemma grid_tenths (c : Q) : In c grid -> exists n : Z, c == inject_Z n / 10.
Proof.
  intros H. apply In_grid in H. destruct H as (i & _ & ->).
  exists (5 + i)%Z. rewrite inject_Z_plus. change (inject_Z 5) with 5. field.
Qed.

Lemma grid_bounds (c : Q) : In c grid -> 0.5 <= c <= 2.9.
Proof.
  intros H. apply In_grid in H. destruct H as (i & Hi & ->).
  assert (L : 0 <= inject_Z i) by (change 0 with (inject_Z 0); rewrite <- Zle_Qle; lia).
  assert (U : inject_Z i <= 24) by (change 24 with (inject_Z 24); rewrite <- Zle_Qle; lia).
  split; lra.
Qed.

(** The value line 72 returns is the candidate the loop ended with. *)
Lemma round1_grid (c : Q) : In c grid -> round1 c == c.
Proof. intros H. destruct (grid_tenths c H) as [n E]. exact (round1_tenths c n E). Qed.

(** ** What the estimator returns *)

Lemma usable_retained (ds : list Q) : usable ds <-> retained ds <> [].
Proof.
  unfold usable, retained. split.
  - intros (d & Hin & Hd) E.
    assert (H : In d (List.filter (fun d => Qgtb d 0.1) ds)).
    { apply filter_In. split; [exact Hin | apply Qgtb_true, Hd]. }
    rewrite E in H. exact H.
  - intros Ne. destruct (List.filter (fun d => Qgtb d 0.1) ds) as [|d l] eqn:E.
    + contradiction.
    + assert (H : In d (List.filter (fun d => Qgtb d 0.1) ds)) by (rewrite E; left; reflexivity).
      apply filter_In in H. destruct H as [Hin Hd].
      exists d. split; [exact Hin | apply Qgtb_true, Hd].
Qed.

(** The loop ends with a candidate, whatever the differences. *)
Lemma grid_search_in_grid (diffs : list Q) : In (grid_search grid diffs) grid.
Proof.
  destruct (grid_search_first_least diffs grid) as (before & after & E & _).
  - discriminate.
  - rewrite E at 2. apply in_elt.
Qed.

Lemma find_charge_unit_grid_search (ds : list Q) :
  find_charge_unit ds == grid_search grid (non_zero_diffs ds).
Proof. apply round1_grid, grid_search_in_grid. Qed.

(** The estimate is the first candidate of least error, the error being
    summed over the list [non_zero_diffs] of line 54. *)
Lemma find_charge_unit_first_minimiser (ds : list Q) :
  first_minimiser (fit_error (non_zero_diffs ds)) grid (find_charge_unit ds).
Proof.
  pose proof (find_charge_unit_grid_search ds) as R.
  pose proof (grid_search_in_grid (non_zero_diffs ds)) as I.
  destruct (grid_search_first_least (non_zero_diffs ds) grid) as (before & after & E & Hb & Ha);
    [discriminate|].
  set (nz := non_zero_diffs ds) in *.
  remember (grid_search grid nz) as r0 eqn:Er0. clear Er0.
  pose proof grid_sorted as S. rewrite E in S.
  destruct (sorted_around _ _ _ S) as [Sb Sa].
  assert (Fr : fit_error nz (find_charge_unit ds) == fit_error nz r0)
    by (apply fit_error_comp_unit, R).
  rewrite List.Forall_forall in Hb, Ha, Sb, Sa.
  repeat split.
  - exists r0. split; [exact I | exact R].
  - intros c Hc. rewrite Fr. rewrite E in Hc.
    apply in_app_or in Hc. destruct Hc as [Hc|[<-|Hc]].
    + apply Qlt_le_weak, Hb, Hc.
    + apply Qle_refl.
    + apply Ha, Hc.
  - intros c Hc Hlt. rewrite Fr. rewrite R in Hlt. rewrite E in Hc.
    apply in_app_or in Hc. destruct Hc as [Hc|[<-|Hc]].
    + apply Hb, Hc.
    + exfalso. lra.
    + exfalso. specialize (Sa c Hc). lra.
Qed.

(** ** Differences that are exact multiples *)

Lemma multiple_of_comp (c c' d d' : Q) :
  c == c' -> d == d' -> multiple_of c d -> multiple_of c' d'.
Proof.
  intros Ec Ed [n E]. exists n. rewrite <- Ec, <- Ed. exact E.
Qed.

Lemma fit_error_zero_multiples (ds : list Q) (c : Q) :
  ~ c == 0 -> (fit_error ds c == 0 <-> Forall (multiple_of c) ds).
Proof.
  intros Nz. rewrite fit_error_zero. split; intros H.
  - eapply Forall_impl; [|exact H]. intros d. apply deviation_zero_multiple, Nz.
  - eapply Forall_impl; [|exact H]. intros d. apply deviation_zero_multiple, Nz.
Qed.

Lemma grid_nonzero (c : Q) : In c grid -> ~ c == 0.
Proof. intros H E. apply grid_bounds in H. lra. Qed.

Lemma In_retained (d : Q) (ds : list Q) :
  In d (retained ds) <-> In d ds /\ 0.1 < d.
Proof. unfold retained. rewrite filter_In, Qgtb_true. reflexivity. Qed.

(** Differences that are whole numbers of tenths pass line 54 unchanged. *)
Lemma non_zero_diffs_tenths (ds : list Q) :
  (forall d, In d ds -> exists n : Z, d == inject_Z n / 10) ->
  Forall2 Qeq (non_zero_diffs ds) (retained ds).
Proof.
  intros T. unfold non_zero_diffs.
  assert (T' : forall d, In d (retained ds) -> exists n : Z, d == inject_Z n / 10).
  { intros d Hd. apply In_retained in Hd. apply T, Hd. }
  clear T. induction (retained ds) as [|d l IH]; simpl; constructor.
  - destruct (T' d (or_introl eq_refl)) as [n E]. exact (round1_tenths d n E).
  - apply IH. intros x Hx. apply T'. right. exact Hx.
Qed.

Lemma exact_differences_multiple (ks : list Z) (u d : Q) :
  In d (exact_differences ks u) -> multiple_of u d.
Proof.
  unfold exact_differences. rewrite in_map_iff.
  intros (k & <- & _). exists (k - k_min ks)%Z. reflexivity.
Qed.

Lemma exact_differences_tenths (ks : list Z) (j : Z) (d : Q) :
  In d (exact_differences ks (inject_Z j / 10)) ->
  exists n : Z, d == inject_Z n / 10.
Proof.
  unfold exact_differences. rewrite in_map_iff.
  intros (k & <- & _). exists ((k - k_min ks) * j)%Z.
  rewrite inject_Z_mult. field.
Qed.

(** When some candidate has error zero, the estimate has error zero too, is
    not above that candidate, and every candidate below the estimate has a
    positive error. *)
Lemma find_charge_unit_zero_error (ds : list Q) (c0 : Q) :
  In c0 grid ->
  fit_error (non_zero_diffs ds) c0 == 0 ->
  fit_error (non_zero_diffs ds) (find_charge_unit ds) == 0 /\
  find_charge_unit ds <= c0 /\
  (forall c, In c grid -> c < find_charge_unit ds ->
             0 < fit_error (non_zero_diffs ds) c).
Proof.
  intros I0 Z0.
  destruct (find_charge_unit_first_minimiser ds) as (_ & Hmin & Hfirst).
  pose proof (fit_error_nonneg (non_zero_diffs ds) (find_charge_unit ds)) as Nn.
  pose proof (Hmin c0 I0) as Le.
  assert (Zr : fit_error (non_zero_diffs ds) (find_charge_unit ds) == 0) by lra.
  repeat split.
  - exact Zr.
  - apply Qnot_lt_le. intros Lt. specialize (Hfirst c0 I0 Lt). lra.
  - intros c Hc Lt. specialize (Hfirst c Hc Lt). lra.
Qed.

(** ** The estimate depends on the rounded differences only *)

Lemma Qltb_comp (x x' y y' : Q) : x == x' -> y == y' -> Qltb x y = Qltb x' y'.
Proof.
  intros Ex Ey. unfold Qltb. rewrite (Qcompare_comp x x' Ex y y' Ey). reflexivity.
Qed.

Lemma probe_comp (diffs diffs' : list Q) (s s' : search) (c : Q) :
  Forall2 Qeq diffs diffs' -> same_search s s' ->
  same_search (probe diffs s c) (probe diffs' s' c).
Proof.
  intros F [Eb Ee].
  pose proof (fit_error_comp diffs diffs' c c F (Qeq_refl c)) as Ef.
  unfold probe. destruct s as [b [e|]], s' as [b' [e'|]]; simpl in *;
    try contradiction.
  - rewrite (Qltb_comp _ _ _ _ Ef Ee).
    destruct (Qltb (fit_error diffs' c) e'); split; simpl; auto.
  - split; simpl; auto.
Qed.

Lemma loop_comp (diffs diffs' candidates : list Q) (s s' : search) :
  Forall2 Qeq diffs diffs' -> same_search s s' ->
  same_search (fold_left (probe diffs) candidates s)
              (fold_left (probe diffs') candidates s').
Proof.
  intros F. revert s s'. induction candidates as [|c cs IH]; intros s s' E; simpl.
  - exact E.
  - apply IH, probe_comp; assumption.
Qed.

Lemma grid_search_comp (candidates diffs diffs' : list Q) :
  Forall2 Qeq diffs diffs' ->
  grid_search candidates diffs = grid_search candidates diffs'.
Proof.
  intros F. unfold grid_search.
  apply (loop_comp diffs diffs' candidates search_init search_init F).
  split; [reflexivity | exact I].
Qed.

(** ** The store *)

Lemma find_charge_unit_st_run (differences : ref) (st : store) (ds : list Q) :
  st !! differences = Some ds ->
  find_charge_unit_st differences st
  = Some (find_charge_unit ds, <[fresh (dom st) := non_zero_diffs ds]> st).
Proof.
  intros H. unfold find_charge_unit_st, and_then, read_list, new_list, pure_value.
  rewrite H. simpl. rewrite lookup_insert_eq. reflexivity.
Qed.

Lemma new_list_frame (st : store) (l : list Q) (r : ref) (old : list Q) :
  st !! r = Some old -> <[fresh (dom st) := l]> st !! r = Some old.
Proof.
  intros H. rewrite lookup_insert_ne; [exact H|].
  intros E. apply (is_fresh (dom st)). rewrite E.
  apply elem_of_dom. exists old. exact H.
Qed.

(** ** The order of the doubles *)

Lemma SFltb_key (f g : spec_float) :
  SFltb f g = true <-> is_number f /\ is_number g /\ key_lt (order_key f) (order_key g).
Proof.
  unfold SFltb, SFcompare, is_number, key_lt.
  destruct f as [[|]|[|]| |[|] m e], g as [[|]|[|]| |[|] m' e']; simpl;
    try (split; [discriminate | intros (A & B & C); try congruence; lia]);
    try (split; [intros _; repeat split; try discriminate; lia | reflexivity]).
  - change (Pos.compare_cont Eq m m') with (Pos.compare m m').
    destruct (Z.compare_spec e e'), (Pos.compare_spec m m'); simpl;
      split; try discriminate; try reflexivity;
      try (intros _; repeat split; try discriminate; lia);
      intros (_ & _ & C); lia.
  - change (Pos.compare_cont Eq m m') with (Pos.compare m m').
    destruct (Z.compare_spec e e'), (Pos.compare_spec m m'); simpl;
      split; try discriminate; try reflexivity;
      try (intros _; repeat split; try discriminate; lia);
      intros (_ & _ & C); lia.
Qed.

Lemma ltb_key (x y : float) :
  (x <? y)%float = true <->
  is_number (Prim2SF x) /\ is_number (Prim2SF y) /\
  key_lt (order_key (Prim2SF x)) (order_key (Prim2SF y)).
Proof. rewrite FloatAxioms.ltb_spec. apply SFltb_key. Qed.

Lemma ltb_trans (x y z : float) :
  (x <? y)%float = true -> (y <? z)%float = true -> (x <? z)%float = true.
Proof.
  rewrite !ltb_key. unfold key_lt. intros (A & B & C) (_ & D & E).
  repeat split; try assumption. lia.
Qed.

Lemma ltb_irrefl (x : float) : (x <? x)%float = false.
Proof.
  apply not_true_iff_false. rewrite ltb_key. unfold key_lt. intros (_ & _ & C). lia.
Qed.

Lemma ltb_asym (x y : float) : (x <? y)%float = true -> (y <? x)%float = false.
Proof.
  intros H. apply not_true_iff_false. intros H'.
  pose proof (ltb_trans _ _ _ H H') as C. rewrite ltb_irrefl in C. discriminate C.
Qed.

Lemma finite_is_number (x : float) : Binary64.finite x = true -> is_number (Prim2SF x).
Proof. unfold Binary64.finite, is_number. destruct (Prim2SF x); congruence. Qed.

(** Below something that a number is not below: below that number. *)
Lemma ltb_le_trans (x y z : float) :
  (x <? y)%float = true -> (z <? y)%float = false -> Binary64.finite z = true ->
  (x <? z)%float = true.
Proof.
  intros H N F. apply finite_is_number in F.
  apply not_true_iff_false in N. rewrite ltb_key in N.
  rewrite ltb_key in *. destruct H as (A & B & C).
  repeat split; try assumption.
  unfold key_lt in *.
  destruct (order_key (Prim2SF x)) as [[a1 a2] a3],
           (order_key (Prim2SF y)) as [[b1 b2] b3],
           (order_key (Prim2SF z)) as [[c1 c2] c3]; simpl in *.
  assert (N' : ~ (c1 < b1 \/ c1 = b1 /\ (c2 < b2 \/ c2 = b2 /\ c3 < b3))%Z)
    by (intros K; apply N; auto).
  lia.
Qed.

Lemma finite_below_infinity (x : float) : Binary64.finite x = true -> (x <? infinity)%float = true.
Proof.
  intros F. rewrite FloatAxioms.ltb_spec. unfold Binary64.finite in F.
  change (Prim2SF infinity) with (S754_infinity false).
  destruct (Prim2SF x) as [[|]|[|]| |[|] m e]; try discriminate F; reflexivity.
Qed.


(** ** The outer loop on doubles *)

Lemma search_searched (diffs candidates seen : list float) (b m : float) :
  Forall (computes diffs) candidates ->
  searched64 diffs seen b m ->
  exists b' m',
    Binary64.search candidates b m diffs = Binary64.Returned b' /\
    searched64 diffs (seen ++ candidates) b' m'.
Proof.
  intros F. revert seen b m.
  induction F as [|c cs (e & Ec & Fe) _ IH]; intros seen b m S; simpl.
  - exists b, m. rewrite app_nil_r. split; [reflexivity | exact S].
  - rewrite Ec.
    replace (seen ++ c :: cs) with ((seen ++ [c]) ++ cs)
      by (rewrite <- app_assoc; reflexivity).
    destruct S as [(-> & -> & ->)|(before & after & -> & Eb & Fm & Hb & Ha)].
    + rewrite (finite_below_infinity e Fe). apply IH.
      right. exists [], []. repeat split; try assumption; constructor.
    + destruct (e <? m)%float eqn:L; apply IH; right.
      * exists (before ++ b :: after), []. repeat split; try assumption; [|constructor].
        apply Forall_app. split; [|constructor].
        -- eapply Forall_impl; [|exact Hb]. intros x (ex & Ex & Lx).
           exists ex. split; [exact Ex | exact (ltb_trans _ _ _ L Lx)].
        -- exists m. split; [exact Eb | exact L].
        -- eapply Forall_impl; [|exact Ha]. intros x (ex & Ex & Fx & Lx).
           exists ex. split; [exact Ex | exact (ltb_le_trans _ _ _ L Lx Fx)].
      * exists before, (after ++ [c]). repeat split; try assumption.
        -- rewrite <- app_assoc. reflexivity.
        -- apply Forall_app. split; [exact Ha|].
           constructor; [|constructor]. exists e. auto.
Qed.

Lemma stays_finite_computes (ds : list float) :
  Binary64.stays_finite ds = true ->
  Forall (computes (Binary64.non_zero_diffs ds)) Binary64.grid.
Proof.
  unfold Binary64.stays_finite. intros H. apply List.Forall_forall. intros c Hc.
  rewrite forallb_forall in H. specialize (H c Hc). unfold computes.
  destruct (Binary64.fit_error (Binary64.non_zero_diffs ds) c) as [e|];
    [|discriminate H].
  exists e. split; [reflexivity | exact H].
Qed.

(** When the computation stays finite the call returns the rounding of the
    first candidate of least computed error. *)
Lemma find_charge_unit_on_doubles (ds : list float) :
  Binary64.stays_finite ds = true ->
  exists (before : list float) (best : float) (after : list float) (e_best : float),
    Binary64.grid = before ++ best :: after /\
    Binary64.find_charge_unit ds = Binary64.Returned (Binary64.np_round1 best) /\
    Binary64.fit_error (Binary64.non_zero_diffs ds) best = Binary64.Returned e_best /\
    (forall c e, In c Binary64.grid ->
       Binary64.fit_error (Binary64.non_zero_diffs ds) c = Binary64.Returned e ->
       (e <? e_best)%float = false) /\
    (forall c e, In c before ->
       Binary64.fit_error (Binary64.non_zero_diffs ds) c = Binary64.Returned e ->
       (e_best <? e)%float = true).
Proof.
  intros H. apply stays_finite_computes in H.
  destruct (search_searched _ _ [] 0%float infinity H) as (b & m & R & S).
  { left. repeat split. }
  simpl in S. destruct S as [(E & _)|(before & after & E & Eb & Fm & Hb & Ha)].
  { discriminate E. }
  exists before, b, after, m.
  split; [exact E|]. split.
  { unfold Binary64.find_charge_unit. fold Binary64.grid. rewrite R. reflexivity. }
  split; [exact Eb|].
  rewrite List.Forall_forall in Hb, Ha. split.
  - intros c e Hc Ec. rewrite E in Hc.
    apply in_app_or in Hc. destruct Hc as [Hc|[<-|Hc]].
    + destruct (Hb c Hc) as (e' & Ec' & L). rewrite Ec in Ec'.
      injection Ec' as <-. apply ltb_asym, L.
    + rewrite Eb in Ec. injection Ec as <-. apply ltb_irrefl.
    + destruct (Ha c Hc) as (e' & Ec' & _ & L). rewrite Ec in Ec'.
      injection Ec' as <-. exact L.
  - intros c e Hc Ec. destruct (Hb c Hc) as (e' & Ec' & L).
    rewrite Ec in Ec'. injection Ec' as <-. exact L.
Qed.

(** ** The candidates on doubles *)

Lemma increasing_head (a : float) (l : list float) :
  Binary64.increasing (a :: l) = true -> Forall (fun c => (a <? c)%float = true) l.
Proof.
  revert a. induction l as [|b l IH]; intros a H; [constructor|].
  simpl in H. apply andb_true_iff in H. destruct H as [Hab H].
  constructor; [exact Hab|].
  eapply Forall_impl; [|apply (IH b H)]. intros c Hc. exact (ltb_trans _ _ _ Hab Hc).
Qed.

Lemma increasing_before (before after : list float) (b : float) :
  Binary64.increasing (before ++ b :: after) = true ->
  Forall (fun c => (c <? b)%float = true) before.
Proof.
  induction before as [|a before IH]; intros H; [constructor|].
  change ((a :: before) ++ b :: after) with (a :: (before ++ b :: after)) in H.
  pose proof (increasing_head _ _ H) as Ha.
  constructor.
  - rewrite List.Forall_forall in Ha. apply Ha, in_elt.
  - apply IH. destruct (before ++ b :: after); [reflexivity|].
    simpl in H. apply andb_true_iff in H. apply H.
Qed.

(** The 25 candidates are in increasing order, and their roundings are the
    doubles of the decimals 0.5, 0.6, ..., 2.9. *)
Lemma grid_on_doubles :
  length Binary64.grid = 25%nat /\
  Binary64.increasing Binary64.grid = true /\
  List.map Binary64.np_round1 Binary64.grid
  = List.map (fun i => (Binary64.of_int (5 + Z.of_nat i) / 10)%float) (seq 0 25).
Proof. vm_compute. repeat split. Qed.

Lemma rounded_candidate (before after : list float) (best : float) :
  Binary64.grid = before ++ best :: after ->
  (length before < 25)%nat /\
  Binary64.np_round1 best
  = (Binary64.of_int (5 + Z.of_nat (length before)) / 10)%float /\
  Forall (fun c => (c <? best)%float = true) before.
Proof.
  intros E. destruct grid_on_doubles as (L & I & M).
  assert (Lb : (length before < 25)%nat).
  { rewrite E, length_app in L. simpl in L. lia. }
  split; [exact Lb|]. split.
  - assert (N : nth (length before) (List.map Binary64.np_round1 Binary64.grid)
                    (Binary64.np_round1 0%float)
                = Binary64.np_round1 best).
    { rewrite map_nth, E, nth_middle. reflexivity. }
    set (g := fun i : nat => (Binary64.of_int (5 + Z.of_nat i) / 10)%float) in M.
    rewrite <- N, M.
    rewrite (nth_indep (List.map g (seq 0 25)) _ (g 0%nat))
      by (rewrite length_map, length_seq; exact Lb).
    rewrite (map_nth g), seq_nth by exact Lb. reflexivity.
  - apply (increasing_before before after). rewrite <- E. exact I.
Qed.

(** * The claims *)

(** ** C1: the estimate minimises the fit score *)

(** C1, as stated, fails.  The claim sums the score over the retained
    differences themselves; line 54 rounds each of them to one decimal
    first.  For the single difference 1.24 the code scores 1.2 / c, finds
    error 0 at 0.6 and returns 0.6, while the sum over the retained
    difference 1.24 is 1/15 at 0.6 and 1/30 at 1.2: the returned candidate
    does not minimise the score the claim writes down.  On doubles it is the
    same: the call returns 0.6, and the sum over 1.24 itself is smaller at
    the eighth candidate, 1.1999999999999997, than at 0.6. *)
Lemma C1_raw_score_counterexample :
  usable [1.24] /\
  find_charge_unit [1.24] == 0.6 /\
  ~ first_minimiser (fit_error (retained [1.24])) grid (find_charge_unit [1.24]) /\
  Binary64.find_charge_unit [1.24]%float = Binary64.Returned 0.6%float /\
  nth_error Binary64.grid 1 = Some 0.6%float /\
  nth_error Binary64.grid 7 = Some 1.1999999999999997%float /\
  exists e e' : float,
    Binary64.fit_error [1.24]%float 0.6%float = Binary64.Returned e /\
    Binary64.fit_error [1.24]%float 1.1999999999999997%float = Binary64.Returned e' /\
    (e' <? e)%float = true.
Proof.
  split; [|split; [|split; [|split; [|split; [|split]]]]].
  - exists 1.24. split; [left; reflexivity | reflexivity].
  - vm_compute. reflexivity.
  - intros (_ & Hmin & _).
    assert (I : In (0.5 + inject_Z 7 * 0.1) grid).
    { apply In_grid. exists 7%Z. split; [lia | reflexivity]. }
    specialize (Hmin _ I). vm_compute in Hmin. apply Hmin. reflexivity.
  - vm_compute. reflexivity.
  - vm_compute. reflexivity.
  - vm_compute. reflexivity.
  - do 2 eexists. repeat split; vm_compute; reflexivity.
Qed.

(** C1, amended: for every sequence of differences with at least one value
    above 0.1 on which the computation stays finite (no quotient overflows
    and every candidate's error is a finite double), the estimator returns,
    as the decimal 0.5 + 0.1 i of its index i, the probed candidate that
    minimises the fit score as the code computes it, in double precision
    and over the retained differences rounded to one decimal: no probed
    candidate has a smaller computed score, and every candidate probed
    before it, each of them lower, has a strictly larger one.  Candidates
    whose exact scores tie need not tie in computed score. *)
Theorem C1_first_minimiser_of_computed_score (ds : list float) :
  (exists d, In d ds /\ (0.1 <? d)%float = true) ->
  Binary64.stays_finite ds = true ->
  exists (before : list float) (best : float) (after : list float) (e_best : float),
    Binary64.grid = before ++ best :: after /\
    Binary64.find_charge_unit ds = Binary64.Returned (Binary64.np_round1 best) /\
    (length before < 25)%nat /\
    Binary64.np_round1 best
    = (Binary64.of_int (5 + Z.of_nat (length before)) / 10)%float /\
    Binary64.fit_error (Binary64.non_zero_diffs ds) best = Binary64.Returned e_best /\
    (forall c e, In c Binary64.grid ->
       Binary64.fit_error (Binary64.non_zero_diffs ds) c = Binary64.Returned e ->
       (e <? e_best)%float = false) /\
    (forall c e, In c before ->
       Binary64.fit_error (Binary64.non_zero_diffs ds) c = Binary64.Returned e ->
       (e_best <? e)%float = true) /\
    Forall (fun c => (c <? best)%float = true) before.
Proof.
  intros _ H.
  destruct (find_charge_unit_on_doubles ds H)
    as (before & best & after & e_best & E & R & Eb & Hmin & Hfirst).
  destruct (rounded_candidate before after best E) as (L & N & I).
  exists before, best, after, e_best. repeat split; assumption.
Qed.

Lemma C1_first_minimiser_of_computed_score_witness :
  (exists d, In d [0; 1.24; 10.8]%float /\ (0.1 <? d)%float = true) /\
  Binary64.stays_finite [0; 1.24; 10.8]%float = true /\
  exists (before : list float) (best : float) (after : list float) (e_best : float),
    Binary64.grid = before ++ best :: after /\
    Binary64.find_charge_unit [0; 1.24; 10.8]%float
    = Binary64.Returned (Binary64.np_round1 best) /\
    (length before < 25)%nat /\
    Binary64.np_round1 best
    = (Binary64.of_int (5 + Z.of_nat (length before)) / 10)%float /\
    Binary64.fit_error (Binary64.non_zero_diffs [0; 1.24; 10.8]%float) best
    = Binary64.Returned e_best /\
    (forall c e, In c Binary64.grid ->
       Binary64.fit_error (Binary64.non_zero_diffs [0; 1.24; 10.8]%float) c
       = Binary64.Returned e ->
       (e <? e_best)%float = false) /\
    (forall c e, In c before ->
       Binary64.fit_error (Binary64.non_zero_diffs [0; 1.24; 10.8]%float) c
       = Binary64.Returned e ->
       (e_best <? e)%float = true) /\
    Forall (fun c => (c <? best)%float = true) before.
Proof.
  assert (U : exists d, In d [0; 1.24; 10.8]%float /\ (0.1 <? d)%float = true).
  { exists 1.24%float. split; [right; left; reflexivity | vm_compute; reflexivity]. }
  assert (F : Binary64.stays_finite [0; 1.24; 10.8]%float = true)
    by (vm_compute; reflexivity).
  split; [exact U | split; [exact F|]].
  exact (C1_first_minimiser_of_computed_score [0; 1.24; 10.8]%float U F).
Defined.

(** ** C2: exact recovery *)




(** ** C3: the scenario 1.2, 2.4, 3.6, 4.8 *)

(** C3: the code at the differences 1.2, 2.4, 3.6, 4.8, evaluated on
    doubles.  It returns 0.6, where the claim, like the comment of line 50
    (the greatest common divisor) and the accuracy the script measures
    against ELECTRON_CHARGE = 1.2, expects 1.2.  The second candidate is the
    double 0.6; the four quotients by it are exactly 2, 4, 6 and 8, so its
    error is exactly 0 and no later candidate is strictly below it.  The
    eighth candidate is 1.1999999999999997, not 1.2, and its error is above
    0. *)
Theorem C3_scenario_on_doubles :
  Binary64.find_charge_unit [1.2; 2.4; 3.6; 4.8]%float = Binary64.Returned 0.6%float /\
  nth_error Binary64.grid 1 = Some 0.6%float /\
  Binary64.fit_error (Binary64.non_zero_diffs [1.2; 2.4; 3.6; 4.8]%float) 0.6%float
  = Binary64.Returned 0%float /\
  nth_error Binary64.grid 7 = Some 1.1999999999999997%float /\
  exists e : float,
    Binary64.fit_error (Binary64.non_zero_diffs [1.2; 2.4; 3.6; 4.8]%float)
                       1.1999999999999997%float
    = Binary64.Returned e /\
    (0 <? e)%float = true.
Proof.
  split; [vm_compute; reflexivity|].
  split; [vm_compute; reflexivity|].
  split; [vm_compute; reflexivity|].
  split; [vm_compute; reflexivity|].
  eexists. split; vm_compute; reflexivity.
Qed.

(** ** C4: no usable difference *)

(** C4, as stated, fails: called with the empty list, or with values that
    are all below 0.1, the estimator raises nothing and returns 0.5. *)
Lemma C4_no_error_counterexample :
  call_find_charge_unit [] <> Raises InsufficientDataError /\
  (exists v, call_find_charge_unit [] = Returns v /\ v == 0.5) /\
  Forall (fun d => d < 0.1) [0; 0.05] /\
  call_find_charge_unit [0; 0.05] <> Raises InsufficientDataError /\
  (exists v, call_find_charge_unit [0; 0.05] = Returns v /\ v == 0.5).
Proof.
  split; [|split; [|split; [|split]]].
  - discriminate.
  - eexists. split; [reflexivity | vm_compute; reflexivity].
  - repeat constructor.
  - discriminate.
  - eexists. split; [reflexivity | vm_compute; reflexivity].
Qed.

Lemma retained_none (ds : list Q) :
  Forall (fun d => d <= 0.1) ds -> retained ds = [].
Proof.
  intros H. unfold retained. induction H as [|d ds Hd _ IH]; simpl.
  - reflexivity.
  - apply Qgtb_false in Hd. rewrite Hd. exact IH.
Qed.

(** C4, amended: for every input that is empty, or whose values are all at
    most 0.1, so that no difference remains after line 54, the estimator
    raises no error: the call returns, and the value is 0.5, the first
    candidate of the grid. *)
Theorem C4_no_usable_difference_returns_first_candidate (ds : list Q) :
  Forall (fun d => d <= 0.1) ds ->
  exists v, call_find_charge_unit ds = Returns v /\ v == 0.5.
Proof.
  intros H. exists (find_charge_unit ds). split; [reflexivity|].
  unfold find_charge_unit, non_zero_diffs. rewrite (retained_none ds H).
  vm_compute. reflexivity.
Qed.

Lemma C4_no_usable_difference_returns_first_candidate_witness :
  Forall (fun d => d <= 0.1) [0; 0.05; 0.1] /\
  exists v, call_find_charge_unit [0; 0.05; 0.1] = Returns v /\ v == 0.5.
Proof.
  assert (H : Forall (fun d => d <= 0.1) [0; 0.05; 0.1]).
  { repeat constructor; unfold Qle; simpl; lia. }
  split; [exact H|].
  exact (C4_no_usable_difference_returns_first_candidate [0; 0.05; 0.1] H).
Defined.

(** ** C5: the estimate is a probed grid point *)

(** C5: whenever at least one difference is usable, the value returned is
    exactly one of the probed grid points 0.5 + i * 0.1 for an integer
    i >= 0 (here i < 25, the number of candidates probed). *)
Theorem C5_estimate_is_grid_point (ds : list Q) :
  usable ds ->
  exists i : Z,
    (0 <= i < 25)%Z /\
    In (0.5 + inject_Z i * 0.1) grid /\
    find_charge_unit ds == 0.5 + inject_Z i * 0.1.
Proof.
  intros _.
  pose proof (grid_search_in_grid (non_zero_diffs ds)) as I.
  pose proof (find_charge_unit_grid_search ds) as E.
  destruct (proj1 (In_grid _) I) as (i & Hi & Ei).
  exists i. split; [exact Hi|]. rewrite <- Ei. split; [exact I | exact E].
Qed.

Lemma C5_estimate_is_grid_point_witness :
  usable [0; 1.2; 3.6] /\
  exists i : Z,
    (0 <= i < 25)%Z /\
    In (0.5 + inject_Z i * 0.1) grid /\
    find_charge_unit [0; 1.2; 3.6] == 0.5 + inject_Z i * 0.1.
Proof.
  assert (U : usable [0; 1.2; 3.6]).
  { exists 1.2. split; [right; left; reflexivity | reflexivity]. }
  split; [exact U | exact (C5_estimate_is_grid_point [0; 1.2; 3.6] U)].
Defined.

(** ** C6: the filter of line 54 *)

Lemma retained_app (ds1 ds2 : list Q) :
  retained (ds1 ++ ds2) = retained ds1 ++ retained ds2.
Proof. unfold retained. apply filter_app. Qed.

Lemma non_zero_diffs_app (ds1 ds2 : list Q) :
  non_zero_diffs (ds1 ++ ds2) = non_zero_diffs ds1 ++ non_zero_diffs ds2.
Proof. unfold non_zero_diffs. rewrite retained_app. apply map_app. Qed.

(** C6, as stated, fails at the threshold itself: a difference equal to 0.1
    is at least 0.1, yet the test [d > 0.1] discards it.  It changes the
    estimate: alone, such a difference leaves nothing to fit and 0.5 is
    returned, while the fit over the one value 0.1 ends at 2.9. *)
Lemma C6_threshold_counterexample :
  0.1 <= 0.1 /\
  retained [0.1] = [] /\
  non_zero_diffs [0.1] = [] /\
  find_charge_unit [0.1] == 0.5 /\
  round1 (grid_search grid [round1 0.1]) == 2.9.
Proof.
  split; [|split; [|split; [|split]]].
  - discriminate.
  - reflexivity.
  - reflexivity.
  - vm_compute. reflexivity.
  - vm_compute. reflexivity.
Qed.

(** C6, amended: the filter excludes exactly the differences that are at
    most 0.1.  A difference less than or equal to 0.1 is discarded: the list
    that is fitted is the one obtained without it.  A difference strictly
    greater than 0.1 takes part in the fit, at its place in the sequence and
    as its rounding to one decimal. *)
Theorem C6_filter_is_strict (ds1 : list Q) (d : Q) (ds2 : list Q) :
  (d <= 0.1 /\ non_zero_diffs (ds1 ++ d :: ds2) = non_zero_diffs (ds1 ++ ds2))
  \/
  (0.1 < d /\
   non_zero_diffs (ds1 ++ d :: ds2)
   = non_zero_diffs ds1 ++ round1 d :: non_zero_diffs ds2).
Proof.
  assert (E : non_zero_diffs (d :: ds2)
              = if Qgtb d 0.1 then round1 d :: non_zero_diffs ds2
                else non_zero_diffs ds2).
  { unfold non_zero_diffs, retained. simpl. destruct (Qgtb d 0.1); reflexivity. }
  rewrite !non_zero_diffs_app, E. destruct (Qgtb d 0.1) eqn:G.
  - right. split; [apply Qgtb_true, G | reflexivity].
  - left. split; [apply Qgtb_false, G | reflexivity].
Qed.

(** ** C7: a malformed grid *)

(** C7, as stated, fails.  The call of the specification's example, with
    the low end 2.0 of the grid above its high end 1.0, does not raise an
    InvalidRangeError: [find_charge_unit] has no parameter for a grid, and
    the call is a TypeError. *)
Lemma C7_grid_call_counterexample :
  1.0 <= 2.0 /\
  call [Sequence [1.2; 2.4]]
       [("search_low"%string, Number 2.0); ("search_high"%string, Number 1.0);
        ("search_step"%string, Number 0.1)]
  = Raises TypeError /\
  call [Sequence [1.2; 2.4]]
       [("search_low"%string, Number 2.0); ("search_high"%string, Number 1.0);
        ("search_step"%string, Number 0.1)]
  <> Raises InvalidRangeError.
Proof.
  split; [unfold Qle; simpl; lia|]. split; [reflexivity | discriminate].
Qed.

(** C7, amended: every call that passes a search grid, malformed or not, as
    keyword arguments or as further positional arguments, fails with a
    TypeError before the body runs, because the estimator has the single
    parameter [differences]; no InvalidRangeError exists, and the grid
    0.5, 3.0, 0.1 of line 60 cannot be changed by a caller. *)
Theorem C7_grid_arguments_raise_TypeError
    (args : list value) (kwargs : list (string * value)) :
  passes_grid args kwargs ->
  call args kwargs = Raises TypeError.
Proof.
  intros P. unfold call. destruct P as [L|(name & v & Hin & Hn)].
  - destruct args as [|a [|b args]]; simpl in L; try lia.
    reflexivity.
  - destruct args as [|a [|b args]].
    + destruct kwargs as [|[n w] [|kw kwargs]]; [contradiction| |reflexivity].
      destruct Hin as [E|[]]. injection E as -> ->.
      destruct (String.eqb name "differences") eqn:Q; [|reflexivity].
      apply String.eqb_eq in Q. contradiction.
    + destruct kwargs as [|kw kwargs]; [contradiction | reflexivity].
    + reflexivity.
Qed.

Lemma C7_grid_arguments_raise_TypeError_witness :
  passes_grid [Sequence [1.2; 2.4]]
              [("search_low"%string, Number 2.0); ("search_high"%string, Number 1.0);
               ("search_step"%string, Number 0.1)] /\
  call [Sequence [1.2; 2.4]]
       [("search_low"%string, Number 2.0); ("search_high"%string, Number 1.0);
        ("search_step"%string, Number 0.1)]
  = Raises TypeError.
Proof.
  assert (P : passes_grid [Sequence [1.2; 2.4]]
                [("search_low"%string, Number 2.0); ("search_high"%string, Number 1.0);
                 ("search_step"%string, Number 0.1)]).
  { right. exists "search_low"%string, (Number 2.0).
    split; [left; reflexivity | discriminate]. }
  split; [exact P|].
  exact (C7_grid_arguments_raise_TypeError _ _ P).
Defined.

(** ** C8: the input list is left as it was *)

(** C8: a call on a list object of the store returns what the pure function
    computes from the list's elements and leaves that object, and every other
    object the store held, element for element as it was; the only change
    to the store is the new list of line 54. *)
Theorem C8_input_not_mutated (st : gmap nat (list Q)) (differences : nat)
    (ds : list Q) :
  st !! differences = Some ds ->
  exists (v : Q) (st' : gmap nat (list Q)),
    find_charge_unit_st differences st = Some (v, st') /\
    v = find_charge_unit ds /\
    st' !! differences = Some ds /\
    (forall (r : nat) (l : list Q), st !! r = Some l -> st' !! r = Some l).
Proof.
  intros H. eexists _, _. split; [apply (find_charge_unit_st_run _ _ _ H)|].
  split; [reflexivity|]. split.
  - apply new_list_frame, H.
  - intros r l Hr. apply new_list_frame, Hr.
Qed.

Lemma C8_input_not_mutated_witness :
  (<[0%nat := [0; 1.2; 2.4]]> ∅ : gmap nat (list Q)) !! 0%nat = Some [0; 1.2; 2.4] /\
  exists (v : Q) (st' : gmap nat (list Q)),
    find_charge_unit_st 0%nat (<[0%nat := [0; 1.2; 2.4]]> ∅) = Some (v, st') /\
    v = find_charge_unit [0; 1.2; 2.4] /\
    st' !! 0%nat = Some [0; 1.2; 2.4] /\
    (forall (r : nat) (l : list Q),
        (<[0%nat := [0; 1.2; 2.4]]> ∅ : gmap nat (list Q)) !! r = Some l ->
        st' !! r = Some l).
Proof.
  assert (H : (<[0%nat := [0; 1.2; 2.4]]> ∅ : gmap nat (list Q)) !! 0%nat
              = Some [0; 1.2; 2.4]) by reflexivity.
  split; [exact H|].
  exact (C8_input_not_mutated (<[0%nat := [0; 1.2; 2.4]]> ∅) 0%nat [0; 1.2; 2.4] H).
Defined.

(** ** C9: the differences are rounded before the fit *)

(** C9: the fit runs over the retained differences rounded to one decimal
    place, so the estimate is a function of those roundings only: two inputs
    whose retained differences agree, one by one, after the rounding of
    line 54 get the same estimate. *)
Theorem C9_estimate_of_rounded_differences (ds ds' : list Q) :
  Forall2 Qeq (List.map round1 (retained ds)) (List.map round1 (retained ds')) ->
  find_charge_unit ds = find_charge_unit ds'.
Proof.
  intros F. unfold find_charge_unit, non_zero_diffs.
  rewrite (grid_search_comp _ _ _ F). reflexivity.
Qed.

Lemma C9_estimate_of_rounded_differences_witness :
  Forall2 Qeq (List.map round1 (retained [1.21; 0.05; 2.44]))
              (List.map round1 (retained [1.19; 2.36; 0])) /\
  find_charge_unit [1.21; 0.05; 2.44] = find_charge_unit [1.19; 2.36; 0].
Proof.
  assert (F : Forall2 Qeq (List.map round1 (retained [1.21; 0.05; 2.44]))
                          (List.map round1 (retained [1.19; 2.36; 0]))).
  { repeat constructor. }
  split; [exact F|].
  exact (C9_estimate_of_rounded_differences [1.21; 0.05; 2.44] [1.19; 2.36; 0] F).
Defined.

(** ** C10: the range of the estimate *)

(** C10: whenever at least one difference is usable, the estimate is at
    least 0.5 and at most 2.9; the grid is end-exclusive, so 3.0 is not
    among the candidates probed and is never returned. *)
Theorem C10_estimate_between_low_and_last (ds : list Q) :
  usable ds ->
  0.5 <= find_charge_unit ds <= 2.9 /\
  (forall c, In c grid -> ~ c == 3.0) /\
  ~ find_charge_unit ds == 3.0.
Proof.
  intros _.
  pose proof (grid_search_in_grid (non_zero_diffs ds)) as I.
  pose proof (find_charge_unit_grid_search ds) as E.
  pose proof (grid_bounds _ I) as B.
  split; [|split].
  - rewrite E. exact B.
  - intros c Hc Ec. apply grid_bounds in Hc. lra.
  - intros E3. lra.
Qed.

Lemma C10_estimate_between_low_and_last_witness :
  usable [0; 2.9; 5.8; 8.7] /\
  0.5 <= find_charge_unit [0; 2.9; 5.8; 8.7] <= 2.9 /\
  (forall c, In c grid -> ~ c == 3.0) /\
  ~ find_charge_unit [0; 2.9; 5.8; 8.7] == 3.0.
Proof.
  assert (U : usable [0; 2.9; 5.8; 8.7]).
  { exists 2.9. split; [right; left; reflexivity | reflexivity]. }
  split; [exact U | exact (C10_estimate_between_low_and_last [0; 2.9; 5.8; 8.7] U)].
Defined.

(** ** The same inputs in binary64 *)

Module Binary64_checks.

(** The second candidate is the double 0.6, and the four differences of the
    scenario divided by it are the doubles 2, 4, 6 and 8: its error is
    exactly zero on the machine too. *)
Lemma scenario_quotients :
  nth 1 (Binary64.arange 0.5 3.0 0.1) 0%float = 0.6%float /\
  List.map (fun d => (d / 0.6)%float) [1.2; 2.4; 3.6; 4.8]%float
  = [2; 4; 6; 8]%float.
Proof. vm_compute. split; reflexivity. Qed.

(** The estimates of the inputs used above, computed on doubles. *)
Lemma scenario_estimate :
  Binary64.find_charge_unit [1.2; 2.4; 3.6; 4.8]%float = Binary64.Returned 0.6%float.
Proof. vm_compute. reflexivity. Qed.

Lemma rounded_difference_estimate :
  Binary64.find_charge_unit [1.24]%float = Binary64.Returned 0.6%float.
Proof. vm_compute. reflexivity. Qed.

Lemma odd_counts_estimate :
  Binary64.find_charge_unit [0; 2.4]%float = Binary64.Returned 0.6%float.
Proof. vm_compute. reflexivity. Qed.

Lemma nothing_usable_estimate :
  Binary64.find_charge_unit [] = Binary64.Returned 0.5%float /\
  Binary64.find_charge_unit [0; 0.05]%float = Binary64.Returned 0.5%float /\
  Binary64.find_charge_unit [0.1]%float = Binary64.Returned 0.5%float.
Proof. vm_compute. repeat split; reflexivity. Qed.

(** A difference whose quotient by a candidate overflows: [round] raises,
    and so does the call. *)
Lemma overflow_raises :
  Binary64.stays_finite [1e308]%float = false /\
  Binary64.find_charge_unit [1e308]%float = Binary64.Raised Binary64.OverflowError.
Proof. vm_compute. split; reflexivity. Qed.

End Binary64_checks.

(** * The code around the estimator *)

(** ** Sorting *)

Lemma insert_sorted_perm {A : Type} (leb : A -> A -> bool) (x : A) (l : list A) :
  Permutation (insert_sorted leb x l) (x :: l).
Proof.
  induction l as [|y l IH]; simpl.
  - apply Permutation_refl.
  - destruct (leb x y).
    + apply Permutation_refl.
    + apply Permutation_trans with (y :: x :: l).
      * apply perm_skip, IH.
      * apply perm_swap.
Qed.

Lemma sorted_by_perm {A : Type} (leb : A -> A -> bool) (l : list A) :
  Permutation (sorted_by leb l) l.
Proof.
  induction l as [|x l IH]; simpl.
  - apply perm_nil.
  - apply Permutation_trans with (x :: sorted_by leb l).
    + apply insert_sorted_perm.
    + apply perm_skip, IH.
Qed.

Lemma insert_sorted_ordered {A : Type} (leb : A -> A -> bool) (R : A -> A -> Prop)
    (x : A) (l : list A) :
  (forall a b, leb a b = true -> R a b) ->
  (forall a b, leb a b = false -> R b a) ->
  (forall a b c, R a b -> R b c -> R a c) ->
  StronglySorted R l -> StronglySorted R (insert_sorted leb x l).
Proof.
  intros Ht Hf Tr S. induction S as [|y l S IH Hy]; simpl.
  - constructor; constructor.
  - destruct (leb x y) eqn:L.
    + constructor; [constructor; assumption|].
      constructor; [apply Ht, L|].
      eapply Forall_impl; [|exact Hy]. intros z Hz. exact (Tr _ _ _ (Ht _ _ L) Hz).
    + constructor; [exact IH|].
      apply List.Forall_forall. intros z Hz.
      apply (Permutation_in _ (insert_sorted_perm leb x l)) in Hz.
      destruct Hz as [<-|Hz].
      * apply Hf, L.
      * rewrite List.Forall_forall in Hy. apply Hy, Hz.
Qed.

Lemma sorted_by_ordered {A : Type} (leb : A -> A -> bool) (R : A -> A -> Prop)
    (l : list A) :
  (forall a b, leb a b = true -> R a b) ->
  (forall a b, leb a b = false -> R b a) ->
  (forall a b c, R a b -> R b c -> R a c) ->
  StronglySorted R (sorted_by leb l).
Proof.
  intros Ht Hf Tr. induction l as [|x l IH]; simpl.
  - constructor.
  - apply (insert_sorted_ordered leb R); assumption.
Qed.

(** Sorting commutes with a map that keeps the order. *)
Lemma sorted_by_map {A B : Type} (lebA : A -> A -> bool) (lebB : B -> B -> bool)
    (f : A -> B) (l : list A) :
  (forall a b, lebB (f a) (f b) = lebA a b) ->
  List.map f (sorted_by lebA l) = sorted_by lebB (List.map f l).
Proof.
  intros H. induction l as [|x l IH]; simpl; [reflexivity|].
  rewrite <- IH. generalize (sorted_by lebA l). intros s.
  induction s as [|y s IHs]; simpl; [reflexivity|].
  rewrite H. destruct (lebA x y); simpl; [reflexivity|].
  rewrite IHs. reflexivity.
Qed.

Lemma Qle_bool_false (x y : Q) : Qle_bool x y = false -> y <= x.
Proof.
  intros H. apply Qlt_le_weak, Qnot_le_lt. intros L.
  apply Qle_bool_iff in L. rewrite L in H. discriminate H.
Qed.

Lemma sorted_ordered (l : list Q) : StronglySorted Qle (sorted l).
Proof.
  apply sorted_by_ordered.
  - intros a b. apply Qle_bool_iff.
  - apply Qle_bool_false.
  - intros a b c. apply Qle_trans.
Qed.

Lemma sorted_perm (l : list Q) : Permutation (sorted l) l.
Proof. apply sorted_by_perm. Qed.

Lemma sorted_ints_ordered (l : list Z) : StronglySorted Z.le (sorted_ints l).
Proof.
  apply sorted_by_ordered.
  - intros a b. apply Z.leb_le.
  - intros a b H. apply Z.leb_gt in H. lia.
  - intros a b c. apply Z.le_trans.
Qed.

Lemma sorted_ints_perm (l : list Z) : Permutation (sorted_ints l) l.
Proof. apply sorted_by_perm. Qed.

Lemma sorted_nonempty (l : list Q) : l <> [] -> sorted l <> [].
Proof.
  intros Ne E. apply Ne. apply Permutation_nil.
  rewrite <- E. apply sorted_perm.
Qed.

(** On a sorted list [min] finds the first element. *)
Lemma py_min_sorted (x : Q) (rest : list Q) :
  StronglySorted Qle (x :: rest) -> py_min (x :: rest) = Some x.
Proof.
  intros S. inversion S as [|? ? _ Hx]; subst. clear S. simpl. f_equal.
  induction Hx as [|y rest Hy _ IH]; simpl; [reflexivity|].
  apply Qltb_false in Hy. rewrite Hy. exact IH.
Qed.

Lemma StronglySorted_map_shift (l : list Q) (m : Q) :
  StronglySorted Qle l -> StronglySorted Qle (List.map (fun x => x - m) l).
Proof.
  intros S. induction S as [|x l _ IH Hx]; simpl; constructor.
  - exact IH.
  - rewrite List.Forall_forall in *. intros y Hy.
    apply in_map_iff in Hy. destruct Hy as (z & <- & Hz).
    specialize (Hx z Hz). lra.
Qed.

(** ** Steps between neighbours *)

Lemma flat_map_seq_succ {A : Type} (f : nat -> list A) (n : nat) :
  flat_map f (seq 1 n) = flat_map (fun i => f (S i)) (seq 0 n).
Proof.
  rewrite <- seq_shift. generalize (seq 0 n). intros l.
  induction l as [|i l IH]; simpl; [reflexivity|]. rewrite IH. reflexivity.
Qed.

(** The loop over indices is the recursion over neighbours. *)
Lemma index_steps_kept_gaps (keep : Q -> bool) (l : list Q) :
  flat_map
    (fun i =>
       let step := nth (i + 1) l 0 - nth i l 0 in
       if keep step then [step] else [])
    (seq 0 (length l - 1))
  = kept_gaps keep l.
Proof.
  induction l as [|a l IH]; [reflexivity|].
  destruct l as [|b l]; [reflexivity|].
  change (length (a :: b :: l) - 1)%nat with (S (length l)).
  change (seq 0 (S (length l))) with (0%nat :: seq 1 (length l)).
  change (kept_gaps keep (a :: b :: l))
    with ((if keep (b - a) then [b - a] else []) ++ kept_gaps keep (b :: l)).
  rewrite <- IH.
  replace (length (b :: l) - 1)%nat with (length l) by (simpl; lia).
  simpl flat_map at 1. f_equal.
  apply flat_map_seq_succ.
Qed.

Lemma step_sizes_kept_gaps (l : list Q) :
  step_sizes l = kept_gaps (fun s => Qgtb s 0.1) l.
Proof. apply (index_steps_kept_gaps (fun s => Qgtb s 0.1)). Qed.

Lemma domino_step_sizes_kept_gaps (l : list Q) :
  Domino.step_sizes l = kept_gaps (fun s => negb (Qeq_bool s 0)) l.
Proof. apply (index_steps_kept_gaps (fun s => negb (Qeq_bool s 0))). Qed.

Lemma kept_gaps_kept (keep : Q -> bool) (l : list Q) :
  Forall (fun s => keep s = true) (kept_gaps keep l).
Proof.
  induction l as [|a l IH]; [constructor|].
  destruct l as [|b l]; [constructor|].
  change (kept_gaps keep (a :: b :: l))
    with ((if keep (b - a) then [b - a] else []) ++ kept_gaps keep (b :: l)).
  apply Forall_app. split; [|exact IH].
  destruct (keep (b - a)) eqn:K; constructor; [exact K | constructor].
Qed.

Lemma kept_gaps_length (keep : Q -> bool) (l : list Q) :
  (length (kept_gaps keep l) <= length l - 1)%nat.
Proof.
  induction l as [|a l IH]; [simpl; lia|].
  destruct l as [|b l]; [simpl; lia|].
  change (kept_gaps keep (a :: b :: l))
    with ((if keep (b - a) then [b - a] else []) ++ kept_gaps keep (b :: l)).
  rewrite length_app. simpl length in *. destruct (keep (b - a)); simpl; lia.
Qed.

Lemma total_app (l1 l2 : list Q) : total (l1 ++ l2) == total l1 + total l2.
Proof.
  induction l1 as [|x l1 IH]; simpl.
  - ring.
  - rewrite IH. ring.
Qed.

(** On an ascending list the kept steps add up to at most the distance from
    the first element to the last. *)
Lemma kept_gaps_total_le (keep : Q -> bool) (l : list Q) :
  StronglySorted Qle l -> total (kept_gaps keep l) <= last l 0 - hd 0 l.
Proof.
  intros S. induction S as [|a l S IH Ha]; [simpl; lra|].
  destruct l as [|b l]; [simpl; lra|].
  change (kept_gaps keep (a :: b :: l))
    with ((if keep (b - a) then [b - a] else []) ++ kept_gaps keep (b :: l)).
  change (last (a :: b :: l) 0) with (last (b :: l) 0).
  change (hd 0 (b :: l)) with b in IH. change (hd 0 (a :: b :: l)) with a.
  rewrite total_app.
  assert (Hab : a <= b) by (inversion Ha; assumption).
  destruct (keep (b - a)).
  - change (total [b - a]) with (b - a + 0). lra.
  - change (total []) with 0. lra.
Qed.

(** When only zero steps are dropped, nothing is lost. *)
Lemma kept_gaps_total_eq (keep : Q -> bool) (l : list Q) :
  (forall s, keep s = false -> s == 0) ->
  total (kept_gaps keep l) == last l 0 - hd 0 l.
Proof.
  intros Hk. induction l as [|a l IH]; [simpl; lra|].
  destruct l as [|b l]; [simpl; lra|].
  change (kept_gaps keep (a :: b :: l))
    with ((if keep (b - a) then [b - a] else []) ++ kept_gaps keep (b :: l)).
  change (last (a :: b :: l) 0) with (last (b :: l) 0).
  change (hd 0 (b :: l)) with b in IH. change (hd 0 (a :: b :: l)) with a.
  rewrite total_app, IH.
  destruct (keep (b - a)) eqn:K.
  - change (total [b - a]) with (b - a + 0). ring.
  - change (total []) with 0. pose proof (Hk _ K). lra.
Qed.

(** ** Masses that are a base plus a whole number of units *)

Lemma inject_Z_sub (m n : Z) : inject_Z (m - n) == inject_Z m - inject_Z n.
Proof. unfold Z.sub. rewrite inject_Z_plus, inject_Z_opp. ring. Qed.

Lemma inject_Z_pos (k : Z) : (1 <= k)%Z -> 1 <= inject_Z k.
Proof. intros H. change 1 with (inject_Z 1). rewrite <- Zle_Qle. exact H. Qed.

Lemma inject_Z_nonneg (k : Z) : (0 <= k)%Z -> 0 <= inject_Z k.
Proof. intros H. change 0 with (inject_Z 0). rewrite <- Zle_Qle. exact H. Qed.

Lemma affine_leb (f : Z -> Q) (u : Q) (a b : Z) :
  0 < u ->
  (forall n m, f m - f n == inject_Z (m - n) * u) ->
  Qle_bool (f a) (f b) = Z.leb a b.
Proof.
  intros Hu Hf. destruct (Z.leb a b) eqn:L.
  - apply Z.leb_le in L. apply Qle_bool_iff.
    pose proof (Hf a b) as E. pose proof (inject_Z_nonneg (b - a) ltac:(lia)). nra.
  - apply Z.leb_gt in L. apply not_true_iff_false. intros T.
    apply Qle_bool_iff in T.
    pose proof (Hf b a) as E. pose proof (inject_Z_pos (a - b) ltac:(lia)). nra.
Qed.

(** The kept steps of ascending masses [f n]: each is a positive whole
    number of units, and together they span the list. *)
Lemma kept_gaps_affine (keep : Q -> bool) (f : Z -> Q) (u : Q) (zs : list Z) :
  0 < u ->
  (forall n m, f m - f n == inject_Z (m - n) * u) ->
  (forall s k, s == inject_Z k * u -> (1 <= k)%Z -> keep s = true) ->
  (forall s, keep s = true -> ~ s == 0) ->
  StronglySorted Z.le zs ->
  Forall (fun s => exists k : Z, (1 <= k)%Z /\ s == inject_Z k * u)
         (kept_gaps keep (List.map f zs)) /\
  total (kept_gaps keep (List.map f zs))
  == last (List.map f zs) 0 - hd 0 (List.map f zs).
Proof.
  intros Hu Hf Hpos Hkeep S.
  induction S as [|a zs S IH Ha]; [split; [constructor | simpl; lra]|].
  destruct zs as [|b zs]; [split; [constructor | simpl; lra]|].
  destruct IH as [IH1 IH2].
  change (List.map f (a :: b :: zs)) with (f a :: List.map f (b :: zs)) in *.
  change (List.map f (b :: zs)) with (f b :: List.map f zs) in *.
  change (kept_gaps keep (f a :: f b :: List.map f zs))
    with ((if keep (f b - f a) then [f b - f a] else [])
            ++ kept_gaps keep (f b :: List.map f zs)).
  change (last (f a :: f b :: List.map f zs) 0) with (last (f b :: List.map f zs) 0).
  change (hd 0 (f b :: List.map f zs)) with (f b) in IH2.
  change (hd 0 (f a :: f b :: List.map f zs)) with (f a).
  assert (Hab : (a <= b)%Z) by (inversion Ha; assumption).
  pose proof (Hf a b) as E.
  rewrite total_app, IH2.
  destruct (Z.eq_dec a b) as [->|Ne].
  - assert (E0 : f b - f b == 0) by ring.
    destruct (keep (f b - f b)) eqn:K.
    + exfalso. exact (Hkeep _ K E0).
    + split; [exact IH1|]. change (total []) with 0. ring.
  - rewrite (Hpos _ (b - a)%Z E ltac:(lia)). split.
    + constructor; [|exact IH1]. exists (b - a)%Z. split; [lia | exact E].
    + change (total [f b - f a]) with (f b - f a + 0). ring.
Qed.

Lemma drop_mass_affine (n m : Z) :
  drop_mass m - drop_mass n == inject_Z (m - n) * ELECTRON_CHARGE.
Proof. unfold drop_mass. rewrite inject_Z_sub. ring. Qed.


(** Sorting the masses is sorting the electron counts. *)
Lemma sorted_drop_masses (draws : list Z) :
  sorted (drop_masses draws) = List.map drop_mass (sorted_ints draws).
Proof.
  symmetry. apply sorted_by_map. intros a b.
  apply (affine_leb drop_mass ELECTRON_CHARGE); [reflexivity|].
  intros n m. apply drop_mass_affine.
Qed.


Lemma k_min_sorted (z : Z) (zs : list Z) :
  StronglySorted Z.le (z :: zs) -> k_min (z :: zs) = z.
Proof.
  intros S. inversion S as [|? ? _ Hz]; subst. clear S. simpl.
  induction Hz as [|y zs Hy _ IH]; simpl; [reflexivity|].
  rewrite Z.min_l by exact Hy. exact IH.
Qed.

(** ** More about rounding and the fit error *)

Lemma round_half_even_ge_floor (q : Q) : (Qfloor q <= round_half_even q)%Z.
Proof.
  unfold round_half_even.
  destruct (Qcompare (q - inject_Z (Qfloor q)) (1 # 2)); [|lia|lia].
  destruct (Z.even (Qfloor q)); lia.
Qed.

Lemma round1_near (x : Q) : Qabs (round1 x - x) <= 0.05.
Proof.
  unfold round1. pose proof (round_half_even_near (x * 10)) as H.
  apply Qabs_Qle_condition in H. destruct H as [H1 H2].
  assert (E : inject_Z (round_half_even (x * 10)) / 10
              == inject_Z (round_half_even (x * 10)) * (1 # 10)) by field.
  rewrite E.
  apply Qabs_case; intros; lra.
Qed.

Lemma round1_at_least_tenth (x : Q) :
  0.1 < x -> (1 <= round_half_even (x * 10))%Z /\ 0.1 <= round1 x.
Proof.
  intros H.
  assert (F : (1 <= Qfloor (x * 10))%Z).
  { change 1%Z with (Qfloor 1). apply Qfloor_resp_le. lra. }
  pose proof (round_half_even_ge_floor (x * 10)) as G.
  split; [lia|].
  unfold round1.
  assert (E : inject_Z (round_half_even (x * 10)) / 10
              == inject_Z (round_half_even (x * 10)) * (1 # 10)) by field.
  rewrite E.
  pose proof (inject_Z_pos (round_half_even (x * 10)) ltac:(lia)). lra.
Qed.

Lemma Qgtb_comp (x x' y y' : Q) : x == x' -> y == y' -> Qgtb x y = Qgtb x' y'.
Proof.
  intros Ex Ey. unfold Qgtb. rewrite (Qcompare_comp x x' Ex y y' Ey). reflexivity.
Qed.

(** The estimate does not depend on how the fractions are written. *)
Lemma non_zero_diffs_comp (ds ds' : list Q) :
  Forall2 Qeq ds ds' -> non_zero_diffs ds = non_zero_diffs ds'.
Proof.
  intros F. unfold non_zero_diffs, retained.
  induction F as [|d d' ds ds' E _ IH]; simpl; [reflexivity|].
  rewrite (Qgtb_comp d d' 0.1 0.1 E (Qeq_refl _)).
  destruct (Qgtb d' 0.1); simpl; [|exact IH].
  rewrite IH, (round1_comp d d' E). reflexivity.
Qed.

Lemma find_charge_unit_comp (ds ds' : list Q) :
  Forall2 Qeq ds ds' -> find_charge_unit ds = find_charge_unit ds'.
Proof.
  intros F. unfold find_charge_unit. rewrite (non_zero_diffs_comp ds ds' F). reflexivity.
Qed.

Lemma probe_ext (diffs diffs' : list Q) (s s' : search) (c : Q) :
  (forall t, fit_error diffs t == fit_error diffs' t) -> same_search s s' ->
  same_search (probe diffs s c) (probe diffs' s' c).
Proof.
  intros F [Eb Ee]. pose proof (F c) as Ef.
  unfold probe. destruct s as [b [e|]], s' as [b' [e'|]]; simpl in *;
    try contradiction.
  - rewrite (Qltb_comp _ _ _ _ Ef Ee).
    destruct (Qltb (fit_error diffs' c) e'); split; simpl; auto.
  - split; simpl; auto.
Qed.

(** Two lists that give every candidate the same error give the same
    result. *)
Lemma grid_search_ext (candidates diffs diffs' : list Q) :
  (forall t, fit_error diffs t == fit_error diffs' t) ->
  grid_search candidates diffs = grid_search candidates diffs'.
Proof.
  intros F. unfold grid_search.
  assert (G : forall s s', same_search s s' ->
                same_search (fold_left (probe diffs) candidates s)
                            (fold_left (probe diffs') candidates s')).
  { induction candidates as [|c cs IH]; intros s s' E; simpl; [exact E|].
    apply IH, probe_ext; assumption. }
  apply (G search_init search_init). split; [reflexivity | exact I].
Qed.

Lemma fit_error_perm (ds ds' : list Q) (c : Q) :
  Permutation ds ds' -> fit_error ds c == fit_error ds' c.
Proof.
  intros P. induction P as [|x l l' _ IH|x y l|l l' l'' _ IH1 _ IH2].
  - reflexivity.
  - rewrite !fit_error_cons, IH. reflexivity.
  - rewrite !fit_error_cons. ring.
  - rewrite IH1. exact IH2.
Qed.

Lemma non_zero_diffs_perm (ds ds' : list Q) :
  Permutation ds ds' -> Permutation (non_zero_diffs ds) (non_zero_diffs ds').
Proof.
  intros P. unfold non_zero_diffs, retained. apply Permutation_map.
  induction P as [|x l l' _ IH|x y l|l l' l'' _ IH1 _ IH2]; simpl.
  - apply perm_nil.
  - destruct (Qgtb x 0.1); [apply perm_skip|]; exact IH.
  - destruct (Qgtb x 0.1), (Qgtb y 0.1);
      try apply perm_swap; apply Permutation_refl.
  - exact (Permutation_trans IH1 IH2).
Qed.

(** * Properties of the code around the estimator *)

(** ** src/oildrop.py, lines 31-35 *)

(** X1: for a non-empty list of masses, [min(sorted_masses)] is the first
    element of the sorted list, one of the masses and not above any of them;
    the mass differences are as many as the masses, start with 0, are never
    negative and are in ascending order. *)
Theorem X1_mass_differences_shape (masses : list Q) :
  masses <> [] ->
  exists (min_mass : Q) (ds : list Q),
    py_min (sorted masses) = Some min_mass /\
    hd_error (sorted masses) = Some min_mass /\
    In min_mass masses /\
    Forall (fun m => min_mass <= m) masses /\
    mass_differences (sorted masses) = Some ds /\
    length ds = length masses /\
    hd 1 ds == 0 /\
    Forall (fun d => 0 <= d) ds /\
    StronglySorted Qle ds.
Proof.
  intros Ne.
  pose proof (sorted_ordered masses) as S.
  pose proof (sorted_perm masses) as P.
  pose proof (sorted_nonempty masses Ne) as Ne'.
  destruct (sorted masses) as [|x rest] eqn:E; [contradiction|].
  pose proof (py_min_sorted x rest S) as M.
  assert (Hx : Forall (fun m => x <= m) (x :: rest)).
  { inversion S; subst. constructor; [apply Qle_refl | assumption]. }
  exists x, (List.map (fun mass => mass - x) (x :: rest)).
  split; [exact M|]. split; [reflexivity|].
  split; [apply (Permutation_in _ P); left; reflexivity|].
  split.
  { rewrite List.Forall_forall in *. intros m Hm.
    apply Hx, (Permutation_in _ (Permutation_sym P)), Hm. }
  split; [unfold mass_differences; rewrite M; reflexivity|].
  split; [rewrite length_map; apply (Permutation_length P)|].
  split; [simpl; ring|].
  split.
  - rewrite List.Forall_forall in *. intros d Hd.
    apply in_map_iff in Hd. destruct Hd as (m & <- & Hm).
    specialize (Hx m Hm). lra.
  - apply StronglySorted_map_shift, S.
Qed.

Lemma X1_mass_differences_shape_witness :
  [8.9; 6.5; 7.7; 6.5] <> [] /\
  exists (min_mass : Q) (ds : list Q),
    py_min (sorted [8.9; 6.5; 7.7; 6.5]) = Some min_mass /\
    hd_error (sorted [8.9; 6.5; 7.7; 6.5]) = Some min_mass /\
    In min_mass [8.9; 6.5; 7.7; 6.5] /\
    Forall (fun m => min_mass <= m) [8.9; 6.5; 7.7; 6.5] /\
    mass_differences (sorted [8.9; 6.5; 7.7; 6.5]) = Some ds /\
    length ds = length [8.9; 6.5; 7.7; 6.5] /\
    hd 1 ds == 0 /\
    Forall (fun d => 0 <= d) ds /\
    StronglySorted Qle ds.
Proof.
  assert (Ne : [8.9; 6.5; 7.7; 6.5] <> []) by discriminate.
  split; [exact Ne | exact (X1_mass_differences_shape [8.9; 6.5; 7.7; 6.5] Ne)].
Defined.

(** ** src/oildrop.py, lines 37-42 *)

(** X2: every recorded step size is above 0.1, there are at most
    [len(masses) - 1] of them, and in exact arithmetic they add up to no
    more than the distance from the lightest to the heaviest drop (on
    doubles the rounded steps can exceed it in the last digit). *)
Theorem X2_step_sizes_bounds (masses : list Q) :
  Forall (fun s => 0.1 < s) (step_sizes (sorted masses)) /\
  (length (step_sizes (sorted masses)) <= length masses - 1)%nat /\
  total (step_sizes (sorted masses))
  <= last (sorted masses) 0 - hd 0 (sorted masses).
Proof.
  rewrite step_sizes_kept_gaps. split; [|split].
  - eapply Forall_impl; [|apply kept_gaps_kept]. intros s. apply Qgtb_true.
  - rewrite <- (Permutation_length (sorted_perm masses)). apply kept_gaps_length.
  - apply kept_gaps_total_le, sorted_ordered.
Qed.

(** ** src/oildrop.py, lines 22-35 and 75 *)

(** X3: whatever numbers of electrons are drawn, the mass differences the
    script computes are the differences [(n - n_min) * 1.2] of the sorted
    electron counts, so the value it prints as discovered is the estimate of
    those exact differences. *)
Theorem X3_generated_differences (draws : list Z) :
  draws <> [] ->
  exists ds : list Q,
    mass_differences (sorted (drop_masses draws)) = Some ds /\
    Forall2 Qeq ds (exact_differences (sorted_ints draws) ELECTRON_CHARGE) /\
    find_charge_unit ds
    = find_charge_unit (exact_differences (sorted_ints draws) ELECTRON_CHARGE).
Proof.
  intros Ne. rewrite sorted_drop_masses.
  pose proof (sorted_ints_ordered draws) as S.
  pose proof (sorted_ints_perm draws) as P.
  destruct (sorted_ints draws) as [|z zs] eqn:E.
  { exfalso. apply Ne. apply Permutation_nil. exact P. }
  assert (Sm : StronglySorted Qle (List.map drop_mass (z :: zs))).
  { rewrite <- E, <- sorted_drop_masses. apply sorted_ordered. }
  assert (F : Forall2 Qeq
                (List.map (fun mass => mass - drop_mass z) (List.map drop_mass (z :: zs)))
                (exact_differences (z :: zs) ELECTRON_CHARGE)).
  { unfold exact_differences. rewrite (k_min_sorted z zs S), map_map.
    generalize (z :: zs). intros l. induction l as [|n l IH]; simpl; constructor.
    - apply drop_mass_affine.
    - exact IH. }
  eexists. split; [|split; [exact F | exact (find_charge_unit_comp _ _ F)]].
  unfold mass_differences.
  change (List.map drop_mass (z :: zs)) with (drop_mass z :: List.map drop_mass zs) in *.
  rewrite (py_min_sorted _ _ Sm). reflexivity.
Qed.

Lemma X3_generated_differences_witness :
  [3; 1; 2; 1]%Z <> [] /\
  exists ds : list Q,
    mass_differences (sorted (drop_masses [3; 1; 2; 1]%Z)) = Some ds /\
    Forall2 Qeq ds (exact_differences (sorted_ints [3; 1; 2; 1]%Z) ELECTRON_CHARGE) /\
    find_charge_unit ds
    = find_charge_unit (exact_differences (sorted_ints [3; 1; 2; 1]%Z) ELECTRON_CHARGE).
Proof.
  assert (Ne : [3; 1; 2; 1]%Z <> []) by discriminate.
  split; [exact Ne | exact (X3_generated_differences [3; 1; 2; 1]%Z Ne)].
Defined.

(** ** src/oildrop.py, lines 22-42 *)

Lemma oildrop_keep_positive (s : Q) (k : Z) :
  s == inject_Z k * ELECTRON_CHARGE -> (1 <= k)%Z -> Qgtb s 0.1 = true.
Proof.
  intros E Hk. apply Qgtb_true. pose proof (inject_Z_pos k Hk) as H.
  unfold ELECTRON_CHARGE in E. lra.
Qed.

Lemma oildrop_keep_nonzero (s : Q) : Qgtb s 0.1 = true -> ~ s == 0.
Proof. intros K E. apply Qgtb_true in K. lra. Qed.

(** X4: whatever numbers of electrons are drawn, every recorded step size is
    a positive whole number of electron charges (so at least 1.2), and the
    step sizes add up to the distance from the lightest to the heaviest
    drop: only the zero steps between equal masses are left out. *)
Theorem X4_generated_steps (draws : list Z) :
  Forall (fun s => exists k : Z, (1 <= k)%Z /\ s == inject_Z k * ELECTRON_CHARGE)
         (step_sizes (sorted (drop_masses draws))) /\
  total (step_sizes (sorted (drop_masses draws)))
  == last (sorted (drop_masses draws)) 0 - hd 0 (sorted (drop_masses draws)).
Proof.
  rewrite step_sizes_kept_gaps, sorted_drop_masses.
  apply (kept_gaps_affine (fun s => Qgtb s 0.1) drop_mass ELECTRON_CHARGE).
  - reflexivity.
  - intros n m. apply drop_mass_affine.
  - apply oildrop_keep_positive.
  - apply oildrop_keep_nonzero.
  - apply sorted_ints_ordered.
Qed.

(** ** src/oildrop.py, lines 127-129 *)

(** X5: the theoretical masses computed from the sorted electron counts are,
    element for element, the sorted measured masses: the two series of the
    verification plot coincide. *)
Theorem X5_theoretical_masses_are_sorted_masses (draws : list Z) :
  theoretical_masses draws = sorted (drop_masses draws).
Proof. rewrite sorted_drop_masses. reflexivity. Qed.

(** ** src/oildrop.py, lines 51-72 *)

(** X6: in exact arithmetic the estimate does not depend on the order of
    the differences: lists that are permutations of each other get the same
    estimate. *)
Theorem X6_estimate_ignores_order (ds ds' : list Q) :
  Permutation ds ds' -> find_charge_unit ds = find_charge_unit ds'.
Proof.
  intros P. unfold find_charge_unit. f_equal. apply grid_search_ext.
  intros t. apply fit_error_perm, non_zero_diffs_perm, P.
Qed.

Lemma X6_estimate_ignores_order_witness :
  Permutation [3.6; 0; 1.2; 2.4] [0; 1.2; 2.4; 3.6] /\
  find_charge_unit [3.6; 0; 1.2; 2.4] = find_charge_unit [0; 1.2; 2.4; 3.6].
Proof.
  assert (P : Permutation [3.6; 0; 1.2; 2.4] [0; 1.2; 2.4; 3.6]).
  { apply (Permutation_cons_app [0; 1.2; 2.4] [] 3.6). apply Permutation_refl. }
  split; [exact P | exact (X6_estimate_ignores_order _ _ P)].
Defined.

(** ** src/oildrop.py, lines 61-66 *)

(** X7: the error of a candidate is never negative and never more than half
    the number of differences fitted: each difference adds its distance to
    the nearest whole number of units, which is at most one half. *)
Theorem X7_fit_error_bounds (diffs : list Q) (test_unit : Q) :
  0 <= fit_error diffs test_unit /\
  fit_error diffs test_unit <= inject_Z (Z.of_nat (length diffs)) * (1 # 2).
Proof.
  split; [apply fit_error_nonneg|].
  induction diffs as [|d diffs IH].
  - unfold Qle. simpl. lia.
  - rewrite fit_error_cons.
    change (length (d :: diffs)) with (S (length diffs)).
    rewrite Nat2Z.inj_succ, <- Z.add_1_r, inject_Z_plus.
    change (inject_Z 1) with 1.
    pose proof (deviation_le_half d test_unit). lra.
Qed.

(** X8: in exact arithmetic a nonzero candidate has error 0 exactly when
    every fitted difference is a whole multiple of it. *)
Theorem X8_zero_error_iff_multiples (diffs : list Q) (test_unit : Q) :
  ~ test_unit == 0 ->
  (fit_error diffs test_unit == 0 <-> Forall (multiple_of test_unit) diffs).
Proof. intros Nz. apply fit_error_zero_multiples, Nz. Qed.

Lemma X8_zero_error_iff_multiples_witness :
  ~ 0.6 == 0 /\
  (fit_error [1.2; 3.0] 0.6 == 0 <-> Forall (multiple_of 0.6) [1.2; 3.0]).
Proof.
  assert (Nz : ~ 0.6 == 0) by discriminate.
  split; [exact Nz | exact (X8_zero_error_iff_multiples [1.2; 3.0] 0.6 Nz)].
Defined.

(** ** src/oildrop.py, line 54 *)

(** X9: the list that is fitted holds, in their order, the roundings of the
    differences above 0.1; each entry is a whole number of tenths, at least
    0.1, and within 0.05 of the difference it comes from.  So no entry is
    zero or negative, and the list is no longer than the input. *)
Theorem X9_fitted_values (differences : list Q) :
  Forall2
    (fun r d =>
       0.1 < d /\ 0.1 <= r /\ Qabs (r - d) <= 0.05 /\
       exists n : Z, (1 <= n)%Z /\ r == inject_Z n / 10)
    (non_zero_diffs differences) (retained differences) /\
  (length (non_zero_diffs differences) <= length differences)%nat.
Proof.
  unfold non_zero_diffs. split.
  - assert (H : Forall (fun d => 0.1 < d) (retained differences)).
    { apply List.Forall_forall. intros d Hd. apply In_retained in Hd. apply Hd. }
    induction H as [|d l Hd _ IH]; simpl; constructor; [|exact IH].
    destruct (round1_at_least_tenth d Hd) as [Hn Hr].
    split; [exact Hd|]. split; [exact Hr|]. split; [apply round1_near|].
    exists (round_half_even (d * 10)). split; [exact Hn | reflexivity].
  - rewrite length_map. unfold retained. apply filter_length_le.
Qed.

(** ** src/domino_oildrop.py, lines 18-23 *)

(** X10: the second script's [absolute_increase], which subtracts the first
    element of the sorted list, is the first script's [mass_differences],
    which subtracts its minimum; both fail on an empty list and only
    there. *)
Theorem X10_absolute_increase_is_mass_differences (masses : list Q) :
  Domino.absolute_increase (sorted masses) = mass_differences (sorted masses) /\
  (Domino.absolute_increase (sorted masses) = None <-> masses = []).
Proof.
  pose proof (sorted_ordered masses) as S.
  pose proof (sorted_perm masses) as P.
  destruct (sorted masses) as [|x rest] eqn:E.
  - split; [reflexivity|]. split; [|reflexivity].
    intros _. apply Permutation_nil. exact P.
  - split.
    + unfold mass_differences. rewrite (py_min_sorted x rest S). reflexivity.
    + split; [discriminate|]. intros ->.
      apply Permutation_sym, Permutation_nil in P. discriminate P.
Qed.

(** ** src/domino_oildrop.py, lines 25-30 *)

Lemma kept_gaps_nonneg (keep : Q -> bool) (l : list Q) :
  StronglySorted Qle l -> Forall (fun s => 0 <= s) (kept_gaps keep l).
Proof.
  intros S. induction S as [|a l S IH Ha]; [constructor|].
  destruct l as [|b l]; [constructor|].
  change (kept_gaps keep (a :: b :: l))
    with ((if keep (b - a) then [b - a] else []) ++ kept_gaps keep (b :: l)).
  apply Forall_app. split; [|exact IH].
  assert (Hab : a <= b) by (inversion Ha; assumption).
  destruct (keep (b - a)); constructor; [lra | constructor].
Qed.

Lemma domino_keep_false (s : Q) : negb (Qeq_bool s 0) = false -> s == 0.
Proof.
  intros H. apply negb_false_iff in H. apply Qeq_bool_iff, H.
Qed.

Lemma domino_keep_true (s : Q) : negb (Qeq_bool s 0) = true -> ~ s == 0.
Proof.
  intros H E. apply negb_true_iff in H. apply Qeq_bool_iff in E.
  rewrite E in H. discriminate H.
Qed.

(** X11: every step size the second script records is positive, and in exact
    arithmetic the step sizes add up to the distance from the smallest to
    the largest mass. *)
Theorem X11_domino_step_sizes (masses : list Q) :
  Forall (fun s => 0 < s) (Domino.step_sizes (sorted masses)) /\
  total (Domino.step_sizes (sorted masses))
  == last (sorted masses) 0 - hd 0 (sorted masses).
Proof.
  rewrite domino_step_sizes_kept_gaps. split.
  - pose proof (kept_gaps_nonneg (fun s => negb (Qeq_bool s 0)) _
                  (sorted_ordered masses)) as N.
    pose proof (kept_gaps_kept (fun s => negb (Qeq_bool s 0)) (sorted masses)) as K.
    rewrite List.Forall_forall in *. intros s Hs.
    specialize (N s Hs). specialize (K s Hs). apply domino_keep_true in K.
    destruct (Qlt_le_dec 0 s) as [L|L]; [exact L|].
    exfalso. apply K. lra.
  - apply kept_gaps_total_eq. apply domino_keep_false.
Qed.

(** ** src/domino_oildrop.py, lines 9-30 *)



(** ** src/oildrop.py, lines 54-72: differences that are all small *)

Lemma round_half_even_small (q : Q) : 0 <= q -> q < 1 # 2 -> round_half_even q = 0%Z.
Proof.
  intros Lo Hi. unfold round_half_even.
  pose proof (Qfloor_le q) as F1. pose proof (Qlt_floor q) as F2.
  assert (F : Qfloor q = 0%Z).
  { assert (A : inject_Z (Qfloor q) < inject_Z 1) by (change (inject_Z 1) with 1; lra).
    assert (B : inject_Z (-1) < inject_Z (Qfloor q)).
    { rewrite inject_Z_plus in F2. change (inject_Z 1) with 1 in F2.
      change (inject_Z (-1)) with (-1 # 1). lra. }
    rewrite <- Zlt_Qlt in A, B. lia. }
  rewrite F. change (inject_Z 0) with 0.
  assert (L : q - 0 < 1 # 2) by lra.
  rewrite (proj1 (Qlt_alt _ _) L). reflexivity.
Qed.

(** A difference of less than half a unit is its own deviation, in units. *)
Lemma deviation_small (r c : Q) :
  0 < c -> 0 <= r -> r * 2 < c -> deviation r c == r / c.
Proof.
  intros Hc Hr Hh. unfold deviation.
  assert (E : r / c * c == r) by (field; lra).
  assert (Lo : 0 <= r / c) by nra.
  assert (Hi : r / c < 1 # 2) by nra.
  rewrite (round_half_even_small _ Lo Hi). change (inject_Z 0) with 0.
  apply Qabs_case; intros; lra.
Qed.

Lemma fit_error_small (diffs : list Q) (c : Q) :
  0 < c -> Forall (fun r => 0 <= r /\ r * 2 < c) diffs ->
  fit_error diffs c == total diffs / c.
Proof.
  intros Hc F. induction F as [|r diffs [Hr Hh] _ IH].
  - unfold fit_error, total. simpl. field. lra.
  - rewrite fit_error_cons, IH, (deviation_small r c Hc Hr Hh).
    change (total (r :: diffs)) with (r + total diffs). field. lra.
Qed.

Lemma small_difference_rounding (d : Q) :
  0.1 < d -> d < 0.25 -> 0.1 <= round1 d <= 0.2.
Proof.
  intros Lo Hi. destruct (round1_at_least_tenth d Lo) as [_ L]. split; [exact L|].
  pose proof (round1_near d) as N. apply Qabs_Qle_condition in N. destruct N as [_ N].
  unfold round1 in *.
  assert (E : inject_Z (round_half_even (d * 10)) / 10
              == inject_Z (round_half_even (d * 10)) * (1 # 10)) by field.
  rewrite E in *.
  assert (Z3 : inject_Z (round_half_even (d * 10)) < inject_Z 3)
    by (change (inject_Z 3) with 3; lra).
  rewrite <- Zlt_Qlt in Z3.
  assert (Z2 : inject_Z (round_half_even (d * 10)) <= inject_Z 2)
    by (rewrite <- Zle_Qle; lia).
  change (inject_Z 2) with 2 in Z2. lra.
Qed.

(** X13: when at least one difference is usable and every difference is
    below 0.25, the estimate is 2.9, the last candidate: each fitted value
    is then less than half of every candidate, is fitted as zero units, and
    the error shrinks as the candidate grows. *)
Theorem X13_small_differences_give_last_candidate (ds : list Q) :
  usable ds ->
  Forall (fun d => d < 0.25) ds ->
  find_charge_unit ds == 2.9.
Proof.
  intros U Small.
  (* the fitted values lie between 0.1 and 0.2, and there is one *)
  assert (R : Forall (fun r => 0.1 <= r <= 0.2) (non_zero_diffs ds)).
  { unfold non_zero_diffs. apply Forall_map. apply List.Forall_forall.
    intros d Hd. apply In_retained in Hd. destruct Hd as [Hin Hd].
    rewrite List.Forall_forall in Small.
    apply small_difference_rounding; [exact Hd | apply Small, Hin]. }
  assert (T : 0 < total (non_zero_diffs ds)).
  { apply usable_retained in U. unfold non_zero_diffs in *.
    destruct (retained ds) as [|d l]; [contradiction|].
    simpl in *. inversion R as [|? ? [Hr _] R']; subst.
    assert (T' : 0 <= total (List.map round1 l)).
    { clear - R'. induction R' as [|r rs [Hr _] _ IH]; simpl; [lra|].
      change (fold_right Qplus 0 rs) with (total rs). lra. }
    change (fold_right Qplus 0 (List.map round1 l)) with (total (List.map round1 l)).
    lra. }
  assert (Score : forall c, In c grid ->
            fit_error (non_zero_diffs ds) c == total (non_zero_diffs ds) / c).
  { intros c Hc. apply grid_bounds in Hc. apply fit_error_small; [lra|].
    eapply Forall_impl; [|exact R]. simpl. intros r Hr. split; lra. }
  (* the estimate is a candidate that no candidate beats *)
  destruct (find_charge_unit_first_minimiser ds) as ((c & Ic & Ec) & Hmin & _).
  set (top := 0.5 + inject_Z 24 * 0.1).
  assert (Itop : In top grid) by (apply In_grid; exists 24%Z; split; [lia | reflexivity]).
  assert (Etop : top == 2.9) by reflexivity.
  specialize (Hmin top Itop).
  rewrite (fit_error_comp_unit _ _ _ Ec), (Score c Ic), (Score top Itop) in Hmin.
  pose proof (grid_bounds c Ic) as Bc.
  rewrite Ec. apply Qle_antisym; [apply Bc|].
  apply Qnot_lt_le. intros Lt.
  set (S := total (non_zero_diffs ds)) in *.
  assert (E1 : S / c * c == S) by (field; lra).
  assert (E2 : S / top * top == S) by (field; lra).
  assert (P1 : 0 < S / c) by nra.
  assert (P2 : 0 < S / top) by nra.
  nra.
Qed.

Lemma X13_small_differences_give_last_candidate_witness :
  usable [0; 0.15; 0.2] /\
  Forall (fun d => d < 0.25) [0; 0.15; 0.2] /\
  find_charge_unit [0; 0.15; 0.2] == 2.9.
Proof.
  assert (U : usable [0; 0.15; 0.2]).
  { exists 0.15. split; [right; left; reflexivity | reflexivity]. }
  assert (F : Forall (fun d => d < 0.25) [0; 0.15; 0.2]).
  { repeat constructor. }
  split; [exact U | split; [exact F|]].
  exact (X13_small_differences_give_last_candidate [0; 0.15; 0.2] U F).
Defined.

(** ** The same on doubles *)

Module Binary64_script_checks.

(** For every pair of electron counts from 1 to 20, the rounding of line 54
    removes the noise of the subtraction: the value that is fitted is the
    double nearest to the exact difference. *)
Lemma generated_differences_round_to_exact :
  length Binary64_script.count_pairs = 190%nat /\
  forallb Binary64_script.rounds_to_exact Binary64_script.count_pairs = true.
Proof. vm_compute. split; reflexivity. Qed.

(** The steps between the drops of 2, 3 and 18 electrons: on doubles their
    sum is above the distance from the lightest to the heaviest drop, which
    bounds it in exact arithmetic. *)
Lemma steps_can_exceed_spread :
  let sorted_masses := List.map Binary64_script.drop_mass [2; 3; 18]%Z in
  sorted_masses = [8.9000000000000004; 10.1; 28.099999999999998]%float /\
  Binary64_script.step_sizes sorted_masses = [1.1999999999999993; 18]%float /\
  Binary64_script.sum (Binary64_script.step_sizes sorted_masses)
  = 19.199999999999999%float /\
  (28.099999999999998 - 8.9000000000000004 = 19.199999999999996)%float /\
  (19.199999999999996 <? 19.199999999999999)%float = true.
Proof. vm_compute. repeat split; reflexivity. Qed.

(** Differences that are all small: the last candidate on doubles too. *)
Lemma small_differences_estimate :
  Binary64.find_charge_unit [0; 0.15; 0.2]%float = Binary64.Returned 2.9%float.
Proof. vm_compute. reflexivity. Qed.

(** Where several candidates fit exactly, the rational model returns the
    first of them.  On doubles their errors are of the size of the rounding
    noise and need not be equal, and another of them can win: for the
    differences 0 and 10.8 the exact estimate is 0.6, while the doubles
    end at 1.8. *)
Lemma noise_decides_exact_ties :
  find_charge_unit [0; 10.8] == 0.6 /\
  Binary64.find_charge_unit [0; 10.8]%float = Binary64.Returned 1.8%float.
Proof. split; vm_compute; reflexivity. Qed.

End Binary64_script_checks.
